(** * Local AI Chat: streaming accumulator and session store

    A shallow embedding of the two copies of the chat application:
    [Local-AI-Chat.py] (the packaged application, called the main copy
    below) and [Local-AI-Chat copy.py] (called the backup copy).  The two
    copies share the session store word for word and differ in the loop of
    [process_ai_response] that reads the response stream.

    Python values are modelled as follows: [str] as [string], [int] as [Z],
    [None]-able references as [option], a session or message dict with a
    fixed set of keys as a record, the list held by [chat_sessions] as a
    [list], and the value returned by [json.loads] as the tree type
    [json].  A [string] holds the UTF-8 encoding of a Python [str].
    Calls of [datetime.datetime.now().isoformat()] read a clock; the
    string they return is an argument [now] of the operation.

    The handlers of the user interface and the background threads are
    modelled as events that change the application state one at a time:
    a thread takes a line of its response, or reaches the end of it,
    between two handlers.  Of the widgets only the field of the input,
    the value and options of the model dropdown and the calls of
    [show_error] are kept; the transcript and its partial updates are
    left out.  A task that a thread hands to [page.run_task] just before
    it returns runs after the thread has returned; the runs in which
    the task overtakes the thread are not followed. *)

From stdpp Require Import base list strings pretty.
From Stdlib Require Import ZArith Ascii Lia.

Local Set Warnings "-register-all".
Local Open Scope string_scope.
Local Open Scope Z_scope.
Local Open Scope list_scope.

(** ** JSON values, as [json.loads] returns them *)

Inductive json : Type :=
| JNull
| JBool (b : bool)
| JNum (n : Z)
| JStr (s : string)
| JList (l : list json)
| JDict (d : list (string * json)).

(** [d[k]] on a dict, given by its bindings in order; a dict holds a
    key once.  Of a number only its being a number matters below, and
    [JNum] stands for the floats as well. *)
Fixpoint dict_get (k : string) (d : list (string * json)) : option json :=
  match d with
  | [] => None
  | (k', v) :: d' => if String.eqb k k' then Some v else dict_get k d'
  end.

(** [p in s] on two strings: [p] occurs in [s] as a substring. *)
Fixpoint is_substring (p s : string) : bool :=
  String.prefix p s ||
  match s with
  | EmptyString => false
  | String _ s' => is_substring p s'
  end.

Definition is_str (k : string) (j : json) : bool :=
  match j with
  | JStr s => String.eqb k s
  | _ => false
  end.

(** [k in chunk] for a string [k]; [None] stands for the [TypeError]
    raised when [chunk] is not a container. *)
Definition py_in (k : string) (chunk : json) : option bool :=
  match chunk with
  | JDict d => Some (bool_decide (is_Some (dict_get k d)))
  | JStr s => Some (is_substring k s)
  | JList l => Some (existsb (is_str k) l)
  | JNull | JBool _ | JNum _ => None
  end.

(** [chunk[k]] for a string [k]; [None] stands for the exception raised
    ([KeyError] on a dict without the key, [TypeError] otherwise). *)
Definition py_getitem (k : string) (chunk : json) : option json :=
  match chunk with
  | JDict d => dict_get k d
  | _ => None
  end.

(** The items that [for char in s] visits, each as a string.  The string
    is cut into its 8-bit characters: a character whose encoding takes
    several bytes comes as several items, which join back to it (of the
    list only the join is observed). *)
Fixpoint chars (s : string) : list json :=
  match s with
  | EmptyString => []
  | String c s' => JStr (String c EmptyString) :: chars s'
  end.

(** [for char in v]: the items the loop visits, [None] when [v] is not
    iterable. *)
Definition py_iter (v : json) : option (list json) :=
  match v with
  | JStr s => Some (chars s)
  | JList l => Some l
  | JDict d => Some (map (λ kv, JStr kv.1) d)
  | JNull | JBool _ | JNum _ => None
  end.

(** [''.join(items)]; [None] when an item is not a string. *)
Fixpoint py_join (items : list json) : option string :=
  match items with
  | [] => Some ""
  | JStr s :: rest => (λ t, s +:+ t) <$> py_join rest
  | _ :: _ => None
  end.

(** ** The response stream *)

(** One item of [response.iter_lines()], classified by what
    [json.loads(line.decode('utf-8'))] does with it. *)
Inductive line : Type :=
| Blank                  (* an empty line: [if line:] is false *)
| BadUtf8                (* [decode] raises [UnicodeDecodeError] *)
| BadJson                (* [json.loads] raises [json.JSONDecodeError] *)
| Parsed (chunk : json). (* [json.loads] returns [chunk] *)

(** The messages handed to [show_error]. *)
Inductive notice : Type :=
| SelectModelFirst       (* "Please select a model first!" *)
| ModelNotAvailable      (* "Selected model not available!" *)
| AIError (detail : json)  (* f"AI Error: {chunk['error']}" *)
| RequestError           (* f"API Error: {error_details}" *)
| ChatDeleted.           (* "Chat deleted successfully!" *)

(** What one turn of the [for line in ...] loop does to the thread:
    go on with a new accumulator, or leave [process] through a [return].
    The [return] paths schedule a task that calls [show_error], and
    [shown] is what the task shows, [None] when it raises before the
    call.  The task of the error branch evaluates [chunk['error']]
    first.  The task of [except Exception as e] evaluates [str(e)]:
    Python unsets [e] when the thread leaves the except block, through
    the [return] that follows [page.run_task], so the task raises
    [NameError] and shows nothing. *)
Inductive step_result (A : Type) : Type :=
| Continue (acc : A)
| Return (shown : option notice).
Arguments Continue {A} acc.
Arguments Return {A} shown.

(** The branch [elif "error" in chunk], common to both copies. *)
Definition error_branch {A : Type} (acc : A) (chunk : json) : step_result A :=
  match py_in "error" chunk with
  | Some true => Return (AIError <$> py_getitem "error" chunk)
  | Some false => Continue acc
  | None => Return None
  end.

Module Backup.

(** The loop body of the backup copy: [text] is a [str], and
    [except json.JSONDecodeError: continue] sits inside the loop, before
    [except Exception as e], which takes every other exception of the
    body and returns. *)
Definition step (text : string) (l : line) : step_result string :=
  match l with
  | Blank => Continue text
  | BadUtf8 => Return None
  | BadJson => Continue text
  | Parsed chunk =>
      match py_in "response" chunk with
      | None => Return None
      | Some true =>
          match py_getitem "response" chunk with
          | Some (JStr s) => Continue (text +:+ s)
          | _ => Return None
          end
      | Some false => error_branch text chunk
      end
  end.

(** [self.add_message_to_session("ai", text)] commits [text] as it is. *)
Definition finish (text : string) : option string := Some text.

End Backup.

Module Main.

(** The loop body of the main copy: [full_response] is a list that
    receives the items of [chunk["response"]] one by one, and the only
    handler, [except Exception as e], sits outside the loop: every
    exception of the body, that of a malformed line too, ends the loop
    and the thread returns. *)
Definition step (full_response : list json) (l : line)
  : step_result (list json) :=
  match l with
  | Blank => Continue full_response
  | BadUtf8 | BadJson => Return None
  | Parsed chunk =>
      match py_in "response" chunk with
      | None => Return None
      | Some true =>
          match py_getitem "response" chunk with
          | Some v =>
              match py_iter v with
              | Some items => Continue (full_response ++ items)
              | None => Return None
              end
          | None => Return None
          end
      | Some false => error_branch full_response chunk
      end
  end.

(** [finalize] evaluates [''.join(full_response)] before it calls
    [add_message_to_session]; when the join raises nothing is committed. *)
Definition finish (full_response : list json) : option string :=
  py_join full_response.

End Main.

(** The two copies as instances of one interface. *)
Record flavour : Type := {
  Acc : Type;
  acc0 : Acc;
  step : Acc → line → step_result Acc;
  finish : Acc → option string
}.

Definition backup_copy : flavour :=
  {| Acc := string; acc0 := ""; step := Backup.step; finish := Backup.finish |}.

Definition main_copy : flavour :=
  {| Acc := list json; acc0 := []; step := Main.step; finish := Main.finish |}.

(** The whole loop over the lines of one response. *)
Fixpoint run_lines (F : flavour) (acc : Acc F) (ls : list line)
  : step_result (Acc F) :=
  match ls with
  | [] => Continue acc
  | l :: ls' =>
      match step F acc l with
      | Continue acc' => run_lines F acc' ls'
      | Return shown => Return shown
      end
  end.

(** How [process] ends once the request has been answered with status 200. *)
Inductive outcome : Type :=
| Commit (text : string)       (* [add_message_to_session("ai", text)] *)
| Surface (shown : option notice) (* left through a [return] *)
| JoinRaised.                  (* [finalize] raised before the commit *)

Definition process (F : flavour) (ls : list line) : outcome :=
  match run_lines F (acc0 F) ls with
  | Continue acc =>
      match finish F acc with
      | Some text => Commit text
      | None => JoinRaised
      end
  | Return shown => Surface shown
  end.

(** ** Sessions and messages *)

(** A message dict [{"sender": .., "text": .., "timestamp": ..}]. *)
Record Message : Type := {
  msg_sender : string;
  msg_text : string;
  msg_timestamp : string
}.

(** A session dict
    [{"id": .., "name": .., "messages": [..], "created_at": ..}]. *)
Record Session : Type := {
  session_id : Z;
  session_name : string;
  session_messages : list Message;
  session_created_at : string
}.

(** [session["messages"].append(m)] *)
Definition append_message (m : Message) (s : Session) : Session :=
  {| session_id := session_id s;
     session_name := session_name s;
     session_messages := session_messages s ++ [m];
     session_created_at := session_created_at s |}.

(** *** The document written by [json.dump] and read by [json.load] *)

Definition message_to_json (m : Message) : json :=
  JDict [("sender", JStr (msg_sender m));
         ("text", JStr (msg_text m));
         ("timestamp", JStr (msg_timestamp m))].

Definition session_to_json (s : Session) : json :=
  JDict [("id", JNum (session_id s));
         ("name", JStr (session_name s));
         ("messages", JList (map message_to_json (session_messages s)));
         ("created_at", JStr (session_created_at s))].

Definition sessions_to_json (ss : list Session) : json :=
  JList (map session_to_json ss).

Definition as_str (j : json) : option string :=
  match j with JStr s => Some s | _ => None end.

Definition as_num (j : json) : option Z :=
  match j with JNum n => Some n | _ => None end.

Definition as_list (j : json) : option (list json) :=
  match j with JList l => Some l | _ => None end.

(** The record view of a dict read back from the file: the keys the
    application reads ([s["id"]], [s["name"]], [s["messages"]],
    [message["sender"]], [message["text"]]) and the two time stamps. *)
Definition message_of_json (j : json) : option Message :=
  sender ← py_getitem "sender" j ≫= as_str;
  text ← py_getitem "text" j ≫= as_str;
  timestamp ← py_getitem "timestamp" j ≫= as_str;
  Some {| msg_sender := sender; msg_text := text; msg_timestamp := timestamp |}.

Definition session_of_json (j : json) : option Session :=
  i ← py_getitem "id" j ≫= as_num;
  name ← py_getitem "name" j ≫= as_str;
  ms ← py_getitem "messages" j ≫= as_list;
  messages ← mapM message_of_json ms;
  created_at ← py_getitem "created_at" j ≫= as_str;
  Some {| session_id := i; session_name := name;
          session_messages := messages; session_created_at := created_at |}.

Definition sessions_of_json (doc : json) : option (list Session) :=
  as_list doc ≫= mapM session_of_json.

(** ** The application state *)

(** A background thread started by [process_ai_response]: between its
    start and the end of its response, with the accumulator [acc] of the
    lines read so far, or past its last statement. *)
Inductive thread (F : flavour) : Type :=
| Streaming (acc : Acc F)
| Finished.
Arguments Streaming {F} acc.
Arguments Finished {F}.

(** The fields of [ChatApp] the handlers below read or write, the file
    [chat_history.json] ([None]: no such file) and the threads started so
    far.  [shown] lists the arguments of the [show_error] calls, oldest
    first. *)
Record App (F : flavour) : Type := {
  chat_sessions : list Session;
  current_chat_id : option Z;
  current_model : option string;
  model_options : list string;
  chat_input : string;
  shown : list notice;
  history_file : option json;
  threads : list (thread F)
}.
Arguments chat_sessions {F} _.
Arguments current_chat_id {F} _.
Arguments current_model {F} _.
Arguments model_options {F} _.
Arguments chat_input {F} _.
Arguments shown {F} _.
Arguments history_file {F} _.
Arguments threads {F} _.

Section Handlers.

Context {F : flavour}.

Definition set_chat_sessions (ss : list Session) (st : App F) : App F :=
  {| chat_sessions := ss; current_chat_id := current_chat_id st;
     current_model := current_model st; model_options := model_options st;
     chat_input := chat_input st; shown := shown st;
     history_file := history_file st; threads := threads st |}.

Definition set_current_chat_id (c : option Z) (st : App F) : App F :=
  {| chat_sessions := chat_sessions st; current_chat_id := c;
     current_model := current_model st; model_options := model_options st;
     chat_input := chat_input st; shown := shown st;
     history_file := history_file st; threads := threads st |}.

Definition set_chat_input (s : string) (st : App F) : App F :=
  {| chat_sessions := chat_sessions st; current_chat_id := current_chat_id st;
     current_model := current_model st; model_options := model_options st;
     chat_input := s; shown := shown st;
     history_file := history_file st; threads := threads st |}.

Definition set_history_file (f : option json) (st : App F) : App F :=
  {| chat_sessions := chat_sessions st; current_chat_id := current_chat_id st;
     current_model := current_model st; model_options := model_options st;
     chat_input := chat_input st; shown := shown st;
     history_file := f; threads := threads st |}.

Definition set_threads (ts : list (thread F)) (st : App F) : App F :=
  {| chat_sessions := chat_sessions st; current_chat_id := current_chat_id st;
     current_model := current_model st; model_options := model_options st;
     chat_input := chat_input st; shown := shown st;
     history_file := history_file st; threads := ts |}.

(** [show_error(message)] *)
Definition show_error (n : notice) (st : App F) : App F :=
  {| chat_sessions := chat_sessions st; current_chat_id := current_chat_id st;
     current_model := current_model st; model_options := model_options st;
     chat_input := chat_input st; shown := shown st ++ [n];
     history_file := history_file st; threads := threads st |}.

(** *** Persistence *)

(** [json.dump(self.chat_sessions.value, f)] on a file opened with "w". *)
Definition save_chat_history (st : App F) : App F :=
  set_history_file (Some (sessions_to_json (chat_sessions st))) st.

(** [load_chat_history]: nothing happens without the file.  The source
    stores whatever [json.load] returns; [None] stands for a document that
    is not a list of session dicts, on which the handlers would raise. *)
Definition load_chat_history (st : App F) : option (App F) :=
  match history_file st with
  | None => Some st
  | Some doc => (λ ss, set_chat_sessions ss st) <$> sessions_of_json doc
  end.

(** *** Sessions *)

(** [handle_new_chat] *)
Definition handle_new_chat (now : string) (st : App F) : App F :=
  let n := Z.of_nat (length (chat_sessions st)) + 1 in
  let new_chat :=
    {| session_id := n; session_name := "Chat " +:+ pretty n;
       session_messages := []; session_created_at := now |} in
  save_chat_history
    (set_current_chat_id (Some n)
       (set_chat_sessions (chat_sessions st ++ [new_chat]) st)).

(** [load_chat]: the id becomes current whether or not a session has it. *)
Definition load_chat (chat_id : Z) (st : App F) : App F :=
  set_current_chat_id (Some chat_id) st.

(** [next((s for s in sessions if s["id"] == current_chat_id), None)]:
    the first session with the current id and its position. *)
Definition current_session (st : App F) : option (nat * Session) :=
  list_find (λ s, current_chat_id st = Some (session_id s)) (chat_sessions st).

(** [add_message_to_session]: the method has no [raise] and no [return];
    under [if session:] (a session dict has keys, so it is true) it
    appends, and without a session it does nothing. *)
Definition add_message_to_session (sender text now : string) (st : App F) : App F :=
  match current_session st with
  | Some (i, s) =>
      let m := {| msg_sender := sender; msg_text := text;
                  msg_timestamp := now |} in
      set_chat_sessions (<[i := append_message m s]> (chat_sessions st)) st
  | None => st
  end.

(** [delete_chat] *)
Definition delete_chat (chat_id : Z) (st : App F) : App F :=
  let st1 :=
    set_chat_sessions
      (filter (λ s, session_id s ≠ chat_id) (chat_sessions st)) st in
  let st2 :=
    if bool_decide (current_chat_id st1 = Some chat_id)
    then set_current_chat_id None st1 else st1 in
  save_chat_history (show_error ChatDeleted st2).

(** *** Sending *)

(** The UTF-8 encoding of a code point below U+10000. *)
Definition utf8 (cp : N) : string :=
  (if cp <? 128 then String (ascii_of_N cp) ""
   else if cp <? 2048 then
     String (ascii_of_N (192 + cp / 64))
       (String (ascii_of_N (128 + cp mod 64)) "")
   else
     String (ascii_of_N (224 + cp / 4096))
       (String (ascii_of_N (128 + (cp / 64) mod 64))
          (String (ascii_of_N (128 + cp mod 64)) "")))%N.

(** The characters for which [str.isspace] holds: U+0009 to U+000D,
    U+001C to U+0020, U+0085, U+00A0, U+1680, U+2000 to U+200A, U+2028,
    U+2029, U+202F, U+205F and U+3000. *)
Definition spaces : list string :=
  utf8 <$> [9; 10; 11; 12; 13; 28; 29; 30; 31; 32; 133; 160; 5760;
            8192; 8193; 8194; 8195; 8196; 8197; 8198; 8199; 8200; 8201;
            8202; 8232; 8233; 8239; 8287; 12288]%N.

(** [s] without its prefix [p], when it starts with [p]. *)
Fixpoint drop_prefix (p s : string) : option string :=
  match p, s with
  | EmptyString, _ => Some s
  | String a p', String b s' =>
      if Ascii.eqb a b then drop_prefix p' s' else None
  | String _ _, EmptyString => None
  end.

(** [s] without the one of [sps] it starts with, if any. *)
Definition drop_space (sps : list string) (s : string) : option string :=
  foldr (λ sp rest, match drop_prefix sp s with
                    | Some r => Some r
                    | None => rest
                    end) None sps.

(** [s] without the characters of [sps] at its head, at most [fuel] of
    them; the length of [s] is fuel enough. *)
Fixpoint drop_spaces (sps : list string) (fuel : nat) (s : string) : string :=
  match fuel with
  | O => s
  | S fuel' =>
      match drop_space sps s with
      | Some r => drop_spaces sps fuel' r
      | None => s
      end
  end.

Definition lstrip (s : string) : string :=
  drop_spaces spaces (String.length s) s.

Definition rstrip (s : string) : string :=
  String.rev
    (drop_spaces (String.rev <$> spaces) (String.length s) (String.rev s)).

(** [s.strip()] *)
Definition strip (s : string) : string := rstrip (lstrip s).

(** Truth value of [self.current_model.current.value]. *)
Definition model_chosen (st : App F) : bool :=
  match current_model st with
  | Some m => negb (String.eqb m "")
  | None => false
  end.

(** [validate_send_conditions], with the state after its [show_error]. *)
Definition validate_send_conditions (st : App F) : bool * App F :=
  if negb (model_chosen st) then (false, show_error SelectModelFirst st)
  else if negb (existsb (λ key, bool_decide (Some key = current_model st))
                  (model_options st))
  then (false, show_error ModelNotAvailable st)
  else if String.eqb (strip (chat_input st)) "" then (false, st)
  else (true, st).

(** [process_ai_response]: a new thread, with an empty accumulator. *)
Definition process_ai_response (st : App F) : App F :=
  set_threads (threads st ++ [Streaming (acc0 F)]) st.

(** [display_user_message] *)
Definition display_user_message (prompt now : string) (st : App F) : App F :=
  add_message_to_session "user" prompt now st.

(** [handle_send_message] *)
Definition handle_send_message (now : string) (st : App F) : App F :=
  let '(ok, st1) := validate_send_conditions st in
  if ok then
    let prompt := strip (chat_input st1) in
    let st2 := display_user_message prompt now st1 in
    set_chat_input "" (process_ai_response st2)
  else st1.

(** *** The threads *)

Definition set_thread (tid : nat) (t : thread F) (st : App F) : App F :=
  set_threads (<[tid := t]> (threads st)) st.

Definition show_if (o : option notice) (st : App F) : App F :=
  match o with
  | Some n => show_error n st
  | None => st
  end.

(** Thread [tid] takes the next line of its response. *)
Definition deliver (tid : nat) (l : line) (st : App F) : App F :=
  match threads st !! tid with
  | Some (Streaming acc) =>
      match step F acc l with
      | Continue acc' => set_thread tid (Streaming acc') st
      | Return o => show_if o (set_thread tid Finished st)
      end
  | _ => st
  end.

(** The response of thread [tid] has no further line: the statements after
    the loop run. *)
Definition exhaust (tid : nat) (now : string) (st : App F) : App F :=
  match threads st !! tid with
  | Some (Streaming acc) =>
      let st1 := set_thread tid Finished st in
      match finish F acc with
      | Some text => add_message_to_session "ai" text now st1
      | None => st1
      end
  | _ => st
  end.

(** The request of thread [tid] is answered with a status other than 200:
    the task [show_api_error] shows the status and the thread returns. *)
Definition abort (tid : nat) (st : App F) : App F :=
  match threads st !! tid with
  | Some (Streaming _) => show_error RequestError (set_thread tid Finished st)
  | _ => st
  end.

(** The request of thread [tid], or the transfer of its response, raises
    an exception of [requests]: the thread returns through a handler
    whose task shows nothing.  In the main copy the task of the outer
    handler calls [cleanup], which is not yet defined when the request
    raises, and the task of the inner handler evaluates [str(e)]; in the
    backup copy the task of [except requests.exceptions.RequestException
    as e] evaluates [str(e)]: [e] is unset by then and the task raises
    [NameError]. *)
Definition request_raises (tid : nat) (st : App F) : App F :=
  match threads st !! tid with
  | Some (Streaming _) => set_thread tid Finished st
  | _ => st
  end.

(** What can happen to a running application, one thing at a time. *)
Inductive event : Type :=
| NewChat (now : string)
| LoadChat (chat_id : Z)
| DeleteChat (chat_id : Z)
| TypeInput (s : string)
| Send (now : string)
| Deliver (tid : nat) (l : line)
| Exhaust (tid : nat) (now : string)
| Abort (tid : nat)
| RequestRaises (tid : nat).

Definition handle (e : event) (st : App F) : App F :=
  match e with
  | NewChat now => handle_new_chat now st
  | LoadChat c => load_chat c st
  | DeleteChat c => delete_chat c st
  | TypeInput s => set_chat_input s st
  | Send now => handle_send_message now st
  | Deliver tid l => deliver tid l st
  | Exhaust tid now => exhaust tid now st
  | Abort tid => abort tid st
  | RequestRaises tid => request_raises tid st
  end.

Definition run (es : list event) (st : App F) : App F :=
  foldl (λ st e, handle e st) st es.

End Handlers.

(** ** The fragments of the protocol *)

(** The text of a text fragment: a JSON object whose ["response"] is a
    string. *)
Definition fragment_text (l : line) : option string :=
  match l with
  | Parsed (JDict d) => dict_get "response" d ≫= as_str
  | _ => None
  end.

(** The error of an error fragment: a JSON object without ["response"]
    and with ["error"]. *)
Definition fragment_error (l : line) : option json :=
  match l with
  | Parsed (JDict d) =>
      match dict_get "response" d with
      | Some _ => None
      | None => dict_get "error" d
      end
  | _ => None
  end.

(** The texts of a list of fragments, one after the other. *)
Definition concat_texts (texts : list string) : string :=
  foldr String.append "" texts.

(** The two copies of the application. *)
Inductive copy : Type := MainCopy | BackupCopy.

Definition flavour_of (c : copy) : flavour :=
  match c with
  | MainCopy => main_copy
  | BackupCopy => backup_copy
  end.
Coercion flavour_of : copy >-> flavour.

(** A response read to its end by thread [tid]: its lines, then the end of
    the stream. *)
Definition response (tid : nat) (ls : list line) (now : string) : list event :=
  (Deliver tid <$> ls) ++ [Exhaust tid now].

(** What both loops do with the fragments of the protocol, stated on the
    text that [finish] would commit. *)
Class StreamLoop (F : flavour) : Prop := {
  finish_acc0 : finish F (acc0 F) = Some "";
  step_text acc t l s :
    finish F acc = Some t → fragment_text l = Some s →
    ∃ acc', step F acc l = Continue acc' ∧ finish F acc' = Some (t +:+ s);
  step_error acc l e :
    fragment_error l = Some e → step F acc l = Return (Some (AIError e));
  step_blank acc : step F acc Blank = Continue acc
}.

(** ** States and lines used in the examples *)

(** The line [{"response": s}] and the line [{"error": s}]. *)
Definition text_line (s : string) : line :=
  Parsed (JDict [("response", JStr s)]).

Definition error_line (s : string) : line :=
  Parsed (JDict [("error", JStr s)]).

(** The application after [__init__], started without a history file
    against a server that lists the models llama3 and mistral:
    [load_models] selects the first of them. *)
Definition fresh (F : flavour) : App F :=
  {| chat_sessions := []; current_chat_id := None;
     current_model := Some "llama3"; model_options := ["llama3"; "mistral"];
     chat_input := ""; shown := []; history_file := None; threads := [] |}.

(** One chat, current, with the prompt "hi" sent and the text "He"
    received so far by the thread that reads the answer. *)
Definition one_chat_streaming (F : flavour) : App F :=
  run [NewChat "t0"; TypeInput "hi"; Send "t1"; Deliver 0%nat (text_line "He")]
      (fresh F).


(** What [validate_send_conditions] asks for: a model is selected, it is
    one of the options of the dropdown, and the input is not blank. *)
Definition can_send {F : flavour} (st : App F) : bool :=
  model_chosen st
  && existsb (λ key, bool_decide (Some key = current_model st))
       (model_options st)
  && negb (String.eqb (strip (chat_input st)) "").

(** ** Further handlers *)

Section MoreHandlers.

Context {F : flavour}.

(** [session["messages"][-1]["text"] = text] *)
Definition set_last_text (text : string) (s : Session) : Session :=
  match last (session_messages s) with
  | Some m =>
      {| session_id := session_id s;
         session_name := session_name s;
         session_messages :=
           <[pred (length (session_messages s)) :=
               {| msg_sender := msg_sender m; msg_text := text;
                  msg_timestamp := msg_timestamp m |}]> (session_messages s);
         session_created_at := session_created_at s |}
  | None => s
  end.

(** [update_session_message]: under [if session and session["messages"]:]
    the text of the last message is replaced; [sender] is not used. *)
Definition update_session_message (sender text : string) (st : App F) : App F :=
  match current_session st with
  | Some (i, s) =>
      match session_messages s with
      | [] => st
      | _ :: _ =>
          set_chat_sessions (<[i := set_last_text text s]> (chat_sessions st)) st
      end
  | None => st
  end.

(** What a [requests.get] comes to: [requests.ConnectionError], or an
    answer with its status code and the value of [response.json()]
    ([None]: the call raises). *)
Inductive http_result : Type :=
| NoConnection
| Answered (status : Z) (body : option json).

(** The two messages [load_models] hands to [show_error]; they are
    returned beside the state. *)
Inductive startup_notice : Type :=
| OllamaNotRunning   (* "Ollama not running! Start Ollama first." *)
| CannotConnect.     (* "Cannot connect to Ollama. Make sure it's running!" *)

Definition set_models (value : option string) (options : list string)
    (st : App F) : App F :=
  {| chat_sessions := chat_sessions st; current_chat_id := current_chat_id st;
     current_model := value; model_options := options;
     chat_input := chat_input st; shown := shown st;
     history_file := history_file st; threads := threads st |}.

(** [[model['name'] for model in models]] for
    [models = response.json().get('models', [])]; [None] when the
    expression raises, or when a name is not a string (the fields of
    [App] hold strings). *)
Definition model_names (body : option json) : option (list string) :=
  match body with
  | Some (JDict d) =>
      py_iter (default (JList []) (dict_get "models" d))
        ≫= mapM (λ model, py_getitem "name" model ≫= as_str)
  | _ => None
  end.

(** [load_models], on the answers to its two requests (the second is
    sent only after the first is answered with 200).  [None]: an
    exception other than [requests.ConnectionError] leaves the method. *)
Definition load_models (ping tags : http_result) (st : App F)
  : option (App F * option startup_notice) :=
  match ping with
  | NoConnection => Some (st, Some CannotConnect)
  | Answered status _ =>
      if negb (status =? 200) then Some (st, Some OllamaNotRunning)
      else
        match tags with
        | NoConnection => Some (st, Some CannotConnect)
        | Answered status' body =>
            if status' =? 200 then
              names ← model_names body;
              Some (set_models
                      (match names with
                       | first :: _ => Some first
                       | [] => current_model st
                       end) names st, None)
            else Some (st, None)
        end
  end.

End MoreHandlers.

(** ** Notions used to state the properties of the handlers *)

(** The ids of the sessions of the store, in the order of the store. *)
Definition session_ids {F : flavour} (st : App F) : list Z :=
  session_id <$> chat_sessions st.

(** A line with nothing for the loop: an empty line, or a chunk in which
    neither ["response"] nor ["error"] is found. *)
Definition skippable (l : line) : bool :=
  match l with
  | Blank => true
  | Parsed chunk =>
      bool_decide (py_in "response" chunk = Some false
                   ∧ py_in "error" chunk = Some false)
  | _ => false
  end.

(** A line that is not malformed JSON and whose ["response"], when it is
    the key of an object, is not a list or an object. *)
Definition plain (l : line) : bool :=
  match l with
  | BadJson => false
  | Parsed (JDict d) =>
      match dict_get "response" d with
      | Some (JList _) | Some (JDict _) => false
      | _ => true
      end
  | _ => true
  end.

(** The text that [process] commits, and the error of an error fragment
    that it shows. *)
Definition commit_of (o : outcome) : option string :=
  match o with
  | Commit text => Some text
  | _ => None
  end.

Definition ai_error_of (o : outcome) : option json :=
  match o with
  | Surface (Some (AIError e)) => Some e
  | _ => None
  end.

(** The lines that the events [es] deliver to the thread [tid]. *)
Definition lines_of (tid : nat) (es : list event) : list line :=
  omap (λ e, match e with
             | Deliver t l => if bool_decide (t = tid) then Some l else None
             | _ => None
             end) es.

(** The events that end the thread [tid]. *)
Definition ends (tid : nat) (e : event) : bool :=
  match e with
  | Exhaust t _ | Abort t | RequestRaises t => bool_decide (t = tid)
  | _ => false
  end.

(** A thread after the loop has taken the lines [ls]. *)
Definition after_lines {F : flavour} (t : thread F) (ls : list line)
  : thread F :=
  match t with
  | Streaming acc =>
      match run_lines F acc ls with
      | Continue acc' => Streaming acc'
      | Return _ => Finished
      end
  | Finished => Finished
  end.


Definition is_delete (e : event) : bool :=
  match e with
  | DeleteChat _ => true
  | _ => false
  end.

(** The events whose handlers end with [save_chat_history]. *)
Definition saves (e : event) : bool :=
  match e with
  | NewChat _ | DeleteChat _ => true
  | _ => false
  end.

(** [s'] is [s] with messages added at the end. *)
Definition extends (s s' : Session) : Prop :=
  session_id s' = session_id s ∧ session_name s' = session_name s ∧
  session_created_at s' = session_created_at s ∧
  session_messages s `prefix_of` session_messages s'.

(** The current id, when set, is the id of a session of the store. *)
Definition current_listed {F : flavour} (st : App F) : Prop :=
  ∀ cid, current_chat_id st = Some cid → cid ∈ session_ids st.

(** Every chat opened by [es] is opened from its tile in the sidebar:
    [update_chat_list] makes one tile per session, bound to its id. *)
Fixpoint opens_listed {F : flavour} (es : list event) (st : App F) : Prop :=
  match es with
  | [] => True
  | e :: es' =>
      match e with
      | LoadChat cid => cid ∈ session_ids st
      | _ => True
      end ∧ opens_listed es' (handle e st)
  end.

(** A message as the handlers store them: a prompt of the user, not
    empty, or an answer. *)
Definition stored_by_handlers (m : Message) : Prop :=
  (msg_sender m = "user" ∧ msg_text m ≠ "") ∨ msg_sender m = "ai".

(** * Proofs *)

(** ** Strings and joins *)

Lemma append_nil_r (s : string) : s +:+ "" = s.
Proof.
  induction s as [|c s IH]; [reflexivity|].
  change (String c (s +:+ "") = String c s). by rewrite IH.
Qed.

Lemma append_assoc (s t u : string) : (s +:+ t) +:+ u = s +:+ (t +:+ u).
Proof.
  induction s as [|c s IH]; [reflexivity|].
  change (String c ((s +:+ t) +:+ u) = String c (s +:+ (t +:+ u))).
  by rewrite IH.
Qed.

Lemma concat_texts_app (xs ys : list string) :
  concat_texts (xs ++ ys) = concat_texts xs +:+ concat_texts ys.
Proof.
  induction xs as [|x xs IH]; [reflexivity|].
  change (x +:+ concat_texts (xs ++ ys) =
          (x +:+ concat_texts xs) +:+ concat_texts ys).
  by rewrite IH, append_assoc.
Qed.

Lemma py_join_chars (s : string) : py_join (chars s) = Some s.
Proof.
  induction s as [|c s IH]; [reflexivity|].
  cbn [chars py_join]. by rewrite IH.
Qed.

Lemma py_join_app (xs ys : list json) (s t : string) :
  py_join xs = Some s → py_join ys = Some t →
  py_join (xs ++ ys) = Some (s +:+ t).
Proof.
  revert s. induction xs as [|x xs IH]; intros s Hx Hy.
  - injection Hx as <-. exact Hy.
  - destruct x; try discriminate. cbn [py_join app] in *.
    destruct (py_join xs) as [s'|]; [|discriminate].
    injection Hx as <-. rewrite (IH s' eq_refl Hy). cbn.
    by rewrite append_assoc.
Qed.

(** ** Stripping *)

Lemma drop_prefix_length (p s r : string) :
  drop_prefix p s = Some r →
  String.length s = (String.length p + String.length r)%nat.
Proof.
  revert s. induction p as [|a p IH]; intros s; cbn.
  - by intros [= ->].
  - destruct s as [|b s]; [done|]. destruct (Ascii.eqb a b); [|done].
    intros H%IH. cbn. by rewrite H.
Qed.

Lemma drop_space_shorter (sps : list string) (s r : string) :
  Forall (λ sp, sp ≠ "") sps → drop_space sps s = Some r →
  (String.length r < String.length s)%nat.
Proof.
  induction 1 as [|sp sps Hsp _ IH]; cbn; [done|].
  destruct (drop_prefix sp s) as [r'|] eqn:Hdrop; [|exact IH].
  intros [= ->]. apply drop_prefix_length in Hdrop.
  destruct sp; [done|]. cbn in Hdrop. lia.
Qed.

(** The fuel that [lstrip] and [rstrip] give is enough: what
    [drop_spaces] returns has none of the characters left at its head. *)
Lemma drop_spaces_done (sps : list string) (fuel : nat) (s : string) :
  Forall (λ sp, sp ≠ "") sps → (String.length s ≤ fuel)%nat →
  drop_space sps (drop_spaces sps fuel s) = None.
Proof.
  intros Hsps. revert s. induction fuel as [|fuel IH]; intros s Hlen; cbn.
  - destruct s; [|cbn in Hlen; lia]. clear Hlen.
    induction Hsps as [|sp sps Hsp _ IHs]; [done|]. cbn.
    by destruct sp.
  - destruct (drop_space sps s) as [r|] eqn:Hdrop; [|done].
    apply IH. apply (drop_space_shorter _ _ _ Hsps) in Hdrop. lia.
Qed.

Lemma lstrip_done (s : string) : drop_space spaces (lstrip s) = None.
Proof.
  apply drop_spaces_done; [|done].
  apply (bool_decide_unpack _). by vm_compute.
Qed.

Lemma length_rev_app (s1 s2 : string) :
  String.length (String.rev_app s1 s2) =
  (String.length s1 + String.length s2)%nat.
Proof.
  revert s2. induction s1 as [|a s1 IH]; intros s2; cbn; [done|].
  rewrite IH. cbn. lia.
Qed.

Lemma rstrip_done (s : string) :
  drop_space (String.rev <$> spaces) (String.rev (rstrip s)) = None.
Proof.
  unfold rstrip.
  assert (∀ t, String.rev (String.rev t) = t) as Hrev.
  { assert (∀ t u v, String.rev_app (String.rev_app t u) v
                     = String.rev_app u (String.append t v)) as H.
    { induction t as [|a t IH]; intros u v; cbn; [done|]. by rewrite IH. }
    intros t. unfold String.rev. rewrite H. cbn. apply append_nil_r. }
  rewrite Hrev. apply drop_spaces_done.
  - apply (bool_decide_unpack _). by vm_compute.
  - unfold String.rev. rewrite length_rev_app. cbn. lia.
Qed.

(** ** The two loops on the fragments of the protocol *)

Lemma dict_get_py_in (k : string) (d : list (string * json)) (v : json) :
  dict_get k d = Some v → py_in k (JDict d) = Some true.
Proof. intros H. cbn. rewrite H. reflexivity. Qed.

Lemma dict_get_py_in_None (k : string) (d : list (string * json)) :
  dict_get k d = None → py_in k (JDict d) = Some false.
Proof. intros H. cbn. rewrite H. reflexivity. Qed.

Lemma error_branch_error {A : Type} (acc : A) (d : list (string * json)) e :
  dict_get "error" d = Some e →
  error_branch acc (JDict d) = Return (Some (AIError e)).
Proof.
  intros H. unfold error_branch. rewrite (dict_get_py_in _ _ _ H).
  cbn. by rewrite H.
Qed.

Lemma fragment_text_inv (l : line) (s : string) :
  fragment_text l = Some s →
  ∃ d, l = Parsed (JDict d) ∧ dict_get "response" d = Some (JStr s).
Proof.
  destruct l as [| | |[]]; try discriminate. cbn.
  destruct (dict_get "response" d) as [[]|] eqn:E; try discriminate.
  intros [= <-]. eauto.
Qed.

Lemma fragment_error_inv (l : line) (e : json) :
  fragment_error l = Some e →
  ∃ d, l = Parsed (JDict d) ∧ dict_get "response" d = None ∧
       dict_get "error" d = Some e.
Proof.
  destruct l as [| | |[]]; try discriminate. cbn.
  destruct (dict_get "response" d) eqn:E; [discriminate|]. eauto.
Qed.

#[global] Instance backup_loop : StreamLoop backup_copy.
Proof.
  split.
  - reflexivity.
  - intros acc t l s [= ->] (d & -> & Hd)%fragment_text_inv.
    exists (t +:+ s). split; [|reflexivity].
    cbn [step backup_copy Backup.step].
    rewrite (dict_get_py_in _ _ _ Hd). cbn [py_getitem]. by rewrite Hd.
  - intros acc l e (d & -> & Hr & He)%fragment_error_inv.
    cbn [step backup_copy Backup.step].
    rewrite (dict_get_py_in_None _ _ Hr). by apply error_branch_error.
  - reflexivity.
Qed.

#[global] Instance main_loop : StreamLoop main_copy.
Proof.
  split.
  - reflexivity.
  - intros acc t l s Hacc (d & -> & Hd)%fragment_text_inv.
    exists (acc ++ chars s). split.
    + cbn [step main_copy Main.step].
      rewrite (dict_get_py_in _ _ _ Hd). cbn [py_getitem]. by rewrite Hd.
    + apply py_join_app; [exact Hacc | apply py_join_chars].
  - intros acc l e (d & -> & Hr & He)%fragment_error_inv.
    cbn [step main_copy Main.step].
    rewrite (dict_get_py_in_None _ _ Hr). by apply error_branch_error.
  - reflexivity.
Qed.

#[global] Instance copy_loop (c : copy) : StreamLoop c.
Proof. destruct c; apply _. Qed.

Lemma run_lines_app (F : flavour) (acc : Acc F) (pre post : list line) :
  run_lines F acc (pre ++ post) =
  match run_lines F acc pre with
  | Continue acc' => run_lines F acc' post
  | Return o => Return o
  end.
Proof.
  revert acc. induction pre as [|l pre IH]; intros acc; [reflexivity|].
  cbn [run_lines app]. destruct (step F acc l); [apply IH | reflexivity].
Qed.

Section Loop.

Context {F : flavour} `{!StreamLoop F}.

Lemma run_lines_text (acc : Acc F) (t : string) (ls : list line)
    (texts : list string) :
  finish F acc = Some t → mapM fragment_text ls = Some texts →
  ∃ acc', run_lines F acc ls = Continue acc' ∧
          finish F acc' = Some (t +:+ concat_texts texts).
Proof.
  intros Hacc Hls%mapM_Some. revert acc t Hacc.
  induction Hls as [|l s ls texts Hl _ IH]; intros acc t Hacc.
  - exists acc. split; [reflexivity|]. cbn. by rewrite append_nil_r.
  - destruct (step_text acc t l s Hacc Hl) as (acc1 & Hstep & Hacc1).
    destruct (IH acc1 _ Hacc1) as (acc' & Hrun & Hacc').
    exists acc'. cbn [run_lines]. rewrite Hstep. split; [exact Hrun|].
    rewrite Hacc'. f_equal. apply append_assoc.
Qed.

Lemma process_text (ls : list line) (texts : list string) :
  mapM fragment_text ls = Some texts →
  process F ls = Commit (concat_texts texts).
Proof.
  intros Hls.
  destruct (run_lines_text _ _ _ _ finish_acc0 Hls) as (acc & Hrun & Hacc).
  unfold process. by rewrite Hrun, Hacc.
Qed.

Lemma run_lines_error (acc acc' : Acc F) (pre post : list line) l e :
  run_lines F acc pre = Continue acc' → fragment_error l = Some e →
  run_lines F acc (pre ++ l :: post) = Return (Some (AIError e)).
Proof.
  intros Hpre Hl. rewrite run_lines_app, Hpre. cbn [run_lines].
  by rewrite (step_error acc' l e Hl).
Qed.

Lemma run_lines_has_error (acc : Acc F) (ls : list line) l e :
  l ∈ ls → fragment_error l = Some e →
  ∃ o, run_lines F acc ls = Return o.
Proof.
  intros (pre & post & ->)%list_elem_of_split Hl.
  rewrite run_lines_app. destruct (run_lines F acc pre) as [acc'|o]; [|eauto].
  cbn [run_lines]. rewrite (step_error acc' l e Hl). eauto.
Qed.

End Loop.

(** ** Threads reading their responses *)

Section Threads.

Context {F : flavour}.
Implicit Types (st : App F) (tid : nat) (ls : list line).

Lemma run_app (es1 es2 : list event) st :
  run (es1 ++ es2) st = run es2 (run es1 st).
Proof. apply foldl_app. Qed.

Lemma set_thread_id tid (t : thread F) st :
  threads st !! tid = Some t → set_thread tid t st = st.
Proof.
  intros H. unfold set_thread, set_threads.
  rewrite (list_insert_id _ _ _ H). by destruct st.
Qed.

Lemma set_thread_twice tid (t u : thread F) st :
  set_thread tid t (set_thread tid u st) = set_thread tid t st.
Proof.
  unfold set_thread, set_threads. cbn. by rewrite list_insert_insert_eq.
Qed.

Lemma set_thread_lookup tid (t u : thread F) st :
  threads st !! tid = Some u → threads (set_thread tid t st) !! tid = Some t.
Proof. intros H%lookup_lt_Some. cbn. by apply list_lookup_insert_eq. Qed.

Lemma threads_show_if (o : option notice) st :
  threads (show_if o st) = threads st.
Proof. by destruct o. Qed.

Lemma deliver_finished tid l st :
  threads st !! tid = Some Finished → deliver tid l st = st.
Proof. intros H. unfold deliver. by rewrite H. Qed.

Lemma run_deliver_finished tid ls st :
  threads st !! tid = Some Finished → run (Deliver tid <$> ls) st = st.
Proof.
  intros H. induction ls as [|l ls IH]; [reflexivity|].
  cbn. rewrite (deliver_finished _ _ _ H). exact IH.
Qed.

(** The lines of a response, taken one event at a time, do to the thread
    what the loop of [process] does. *)
Lemma run_deliver tid ls (acc : Acc F) st :
  threads st !! tid = Some (Streaming acc) →
  run (Deliver tid <$> ls) st =
  match run_lines F acc ls with
  | Continue acc' => set_thread tid (Streaming acc') st
  | Return o => show_if o (set_thread tid Finished st)
  end.
Proof.
  revert acc st. induction ls as [|l ls IH]; intros acc st Hth.
  - cbn. symmetry. by apply set_thread_id.
  - cbn [fmap list_fmap run foldl handle run_lines].
    change (foldl (λ s e, handle e s) (deliver tid l st) (Deliver tid <$> ls))
      with (run (Deliver tid <$> ls) (deliver tid l st)).
    unfold deliver at 1. rewrite Hth.
    destruct (step F acc l) as [acc1|o].
    + rewrite (IH acc1) by (by eapply set_thread_lookup).
      destruct (run_lines F acc1 ls); by rewrite set_thread_twice.
    + apply run_deliver_finished. rewrite threads_show_if.
      by eapply set_thread_lookup.
Qed.

Lemma exhaust_finished tid now st :
  threads st !! tid = Some Finished → exhaust tid now st = st.
Proof. intros H. unfold exhaust. by rewrite H. Qed.

End Threads.

(** ** The session store *)

Section Store.

Context {F : flavour}.
Implicit Types (st : App F) (ss : list Session).

Lemma message_of_to_json (m : Message) :
  message_of_json (message_to_json m) = Some m.
Proof. by destruct m. Qed.

Lemma session_of_to_json (s : Session) :
  session_of_json (session_to_json s) = Some s.
Proof.
  destruct s as [i name ms created]. unfold session_of_json. cbn.
  change (map message_to_json ms) with (message_to_json <$> ms).
  rewrite (mapM_fmap_Some _ _ _ message_of_to_json). reflexivity.
Qed.

Lemma sessions_of_to_json ss :
  sessions_of_json (sessions_to_json ss) = Some ss.
Proof. cbn. apply mapM_fmap_Some, session_of_to_json. Qed.

(** [next(...)] finds nothing exactly when no session has the current id. *)
Lemma current_session_None st :
  current_session st = None ↔
  ∀ s, s ∈ chat_sessions st → current_chat_id st ≠ Some (session_id s).
Proof. unfold current_session. by rewrite list_find_None, Forall_forall. Qed.

Lemma current_session_first st (pre post : list Session) (s : Session) :
  chat_sessions st = pre ++ s :: post →
  current_chat_id st = Some (session_id s) →
  (∀ p, p ∈ pre → session_id p ≠ session_id s) →
  current_session st = Some (length pre, s).
Proof.
  intros Hss Hcur Hpre. unfold current_session. rewrite Hss, Hcur.
  apply list_find_Some. split_and!.
  - by rewrite list_lookup_middle.
  - reflexivity.
  - intros j y Hj Hlt [= Hy]. rewrite lookup_app_l in Hj by done.
    apply list_elem_of_lookup_2 in Hj. by apply (Hpre y).
Qed.

Lemma add_message_no_current sender text now st :
  current_session st = None → add_message_to_session sender text now st = st.
Proof. unfold add_message_to_session. by intros ->. Qed.


Lemma add_message_history_file sender text now st :
  history_file (add_message_to_session sender text now st) = history_file st.
Proof.
  unfold add_message_to_session. by destruct (current_session st) as [[]|].
Qed.

Lemma add_message_current sender text now st :
  current_chat_id (add_message_to_session sender text now st) =
  current_chat_id st.
Proof.
  unfold add_message_to_session. by destruct (current_session st) as [[]|].
Qed.

Lemma add_message_threads sender text now st :
  threads (add_message_to_session sender text now st) = threads st.
Proof.
  unfold add_message_to_session. by destruct (current_session st) as [[]|].
Qed.

(** Among the sublists without the id, the comprehension of [delete_chat]
    is the largest. *)
Lemma sublist_filter_max (P : Session → Prop) `{!∀ s, Decision (P s)} ss k :
  k `sublist_of` ss → Forall P k → k `sublist_of` filter P ss.
Proof.
  induction 1 as [|x k ss _ IH|x k ss _ IH]; intros Hk.
  - constructor.
  - apply Forall_cons in Hk as [Hx Hk]. rewrite filter_cons_True by done.
    by constructor; apply IH.
  - rewrite filter_cons. destruct (decide (P x)); [constructor|]; by apply IH.
Qed.

Lemma delete_chat_sessions cid st :
  chat_sessions (delete_chat cid st) =
  filter (λ s, session_id s ≠ cid) (chat_sessions st).
Proof. unfold delete_chat. cbn. by case_bool_decide. Qed.

Lemma delete_chat_current cid st :
  current_chat_id (delete_chat cid st) =
  if bool_decide (current_chat_id st = Some cid) then None
  else current_chat_id st.
Proof. unfold delete_chat. cbn. by case_bool_decide. Qed.

End Store.

(** ** A response read to its end *)

Section Responses.

Context {F : flavour}.
Implicit Types (st : App F) (tid : nat) (ls : list line).

Lemma run_response tid ls now st :
  run (response tid ls now) st = exhaust tid now (run (Deliver tid <$> ls) st).
Proof. unfold response. by rewrite run_app. Qed.

Lemma chat_sessions_show_if (o : option notice) st :
  chat_sessions (show_if o st) = chat_sessions st.
Proof. by destruct o. Qed.

(** A loop left through a [return] ends the thread without a commit. *)
Lemma run_response_return tid ls now (o : option notice) st :
  threads st !! tid = Some (Streaming (acc0 F)) →
  run_lines F (acc0 F) ls = Return o →
  run (response tid ls now) st = show_if o (set_thread tid Finished st).
Proof.
  intros Hth Hrun. rewrite run_response, (run_deliver _ _ _ _ Hth), Hrun.
  apply exhaust_finished. rewrite threads_show_if.
  by eapply set_thread_lookup.
Qed.

(** A loop that runs out of lines commits what [finish] makes of the
    accumulator. *)
Lemma run_response_continue tid ls now (acc : Acc F) (text : string) st :
  threads st !! tid = Some (Streaming (acc0 F)) →
  run_lines F (acc0 F) ls = Continue acc →
  finish F acc = Some text →
  run (response tid ls now) st =
  add_message_to_session "ai" text now (set_thread tid Finished st).
Proof.
  intros Hth Hrun Hfin. rewrite run_response, (run_deliver _ _ _ _ Hth), Hrun.
  unfold exhaust. rewrite (set_thread_lookup _ _ _ _ Hth), Hfin.
  by rewrite set_thread_twice.
Qed.

End Responses.

(** C1. When no fragment of a response is an error fragment (each line is
    a text fragment, [texts] listing their texts in arrival order), both
    copies end the stream with a commit of the concatenation of the texts,
    and the message appended to the current session (the first session
    with the current id) when the stream ends has that concatenation as
    its text and "ai" as its sender. *)
Theorem committed_message_is_concatenation
    (c : copy) (ls : list line) (texts : list string)
    (st : App c) (tid : nat) (now : string) (i : nat) (s : Session) :
  mapM fragment_text ls = Some texts →
  threads st !! tid = Some (Streaming (acc0 c)) →
  current_session st = Some (i, s) →
  process c ls = Commit (concat_texts texts) ∧
  chat_sessions (run (response tid ls now) st) =
    <[i := append_message
             {| msg_sender := "ai"; msg_text := concat_texts texts;
                msg_timestamp := now |} s]> (chat_sessions st).
Proof.
  intros Hls Hth Hcur. split; [by apply process_text|].
  destruct (run_lines_text (F := c) _ _ _ _ finish_acc0 Hls)
    as (acc & Hrun & Hacc).
  rewrite (run_response_continue _ _ _ _ _ _ Hth Hrun Hacc).
  unfold add_message_to_session.
  change (current_session (set_thread tid Finished st))
    with (current_session st).
  by rewrite Hcur.
Qed.

Lemma committed_message_is_concatenation_witness :
  let st := run [NewChat "t0"; TypeInput "hi"; Send "t1"] (fresh MainCopy) in
  let ls := [text_line "He"; text_line "llo"] in
  process MainCopy ls = Commit "Hello" ∧
  chat_sessions (run (response 0 ls "t2") st) =
    [{| session_id := 1; session_name := "Chat 1";
        session_messages :=
          [{| msg_sender := "user"; msg_text := "hi"; msg_timestamp := "t1" |};
           {| msg_sender := "ai"; msg_text := "Hello"; msg_timestamp := "t2" |}];
        session_created_at := "t0" |}].
Proof.
  exact (committed_message_is_concatenation MainCopy
           [text_line "He"; text_line "llo"] ["He"; "llo"]
           (run [NewChat "t0"; TypeInput "hi"; Send "t1"] (fresh MainCopy))
           0%nat "t2" 0%nat
           {| session_id := 1; session_name := "Chat 1";
              session_messages :=
                [{| msg_sender := "user"; msg_text := "hi";
                    msg_timestamp := "t1" |}];
              session_created_at := "t0" |}
           eq_refl eq_refl eq_refl).
Defined.

(** C2. When a response holds an error fragment [l], neither copy commits
    a message: the loop is left through a [return], the thread ends, and
    the sessions of the store are what they were before the response.
    When the loop reaches [l] (the lines [pre] before it do not end the
    loop), processing stops there: the error of [l] is shown (it is
    added to the errors shown so far), whatever was accumulated from
    [pre] is dropped, and the lines [post] after [l] play no part. *)
Theorem error_fragment_stops_without_commit
    (c : copy) (ls : list line) (l : line) (e : json)
    (st : App c) (tid : nat) (now : string) :
  l ∈ ls → fragment_error l = Some e →
  threads st !! tid = Some (Streaming (acc0 c)) →
  (∃ o, process c ls = Surface o) ∧
  chat_sessions (run (response tid ls now) st) = chat_sessions st ∧
  threads (run (response tid ls now) st) !! tid = Some Finished ∧
  ∀ pre post acc,
    ls = pre ++ l :: post → run_lines c (acc0 c) pre = Continue acc →
    process c ls = Surface (Some (AIError e)) ∧
    run (response tid ls now) st =
      show_error (AIError e) (set_thread tid Finished st) ∧
    shown (run (response tid ls now) st) = shown st ++ [AIError e].
Proof.
  intros Hin Hl Hth.
  destruct (run_lines_has_error (acc0 c) ls l e Hin Hl) as [o Ho].
  pose proof (run_response_return tid ls now o st Hth Ho) as Hrun.
  split_and!.
  - exists o. unfold process. by rewrite Ho.
  - by rewrite Hrun, chat_sessions_show_if.
  - rewrite Hrun, threads_show_if. by eapply set_thread_lookup.
  - intros pre post acc -> Hpre.
    pose proof (run_lines_error _ _ pre post l e Hpre Hl) as Herr.
    split; [unfold process; by rewrite Herr|].
    by rewrite (run_response_return tid _ now _ st Hth Herr).
Qed.

Lemma error_fragment_stops_without_commit_witness :
  let st := one_chat_streaming BackupCopy in
  let ls := [text_line "Hm"; error_line "model crashed"; text_line "x"] in
  process BackupCopy ls = Surface (Some (AIError (JStr "model crashed"))) ∧
  chat_sessions (run (response 1 ls "t3") (handle_send_message "t2"
     (set_chat_input "again" st))) =
  chat_sessions (handle_send_message "t2" (set_chat_input "again" st)) ∧
  shown (run (response 1 ls "t3") (handle_send_message "t2"
     (set_chat_input "again" st))) = [AIError (JStr "model crashed")].
Proof.
  pose proof (error_fragment_stops_without_commit BackupCopy
    [text_line "Hm"; error_line "model crashed"; text_line "x"]
    (error_line "model crashed") (JStr "model crashed")
    (handle_send_message "t2"
       (set_chat_input "again" (one_chat_streaming BackupCopy)))
    1%nat "t3") as H.
  destruct H as (_ & Hss & _ & Hstop).
  - apply list_elem_of_further, list_elem_of_here.
  - reflexivity.
  - reflexivity.
  - destruct (Hstop [text_line "Hm"] [text_line "x"] "Hm" eq_refl eq_refl)
      as (Hproc & _ & Hshown).
    split_and!; [exact Hproc | exact Hss | exact Hshown].
Defined.

(** C3, the main copy at a malformed line.  The main copy has its only
    handler around the whole loop: the malformed line between "He" and
    "llo" ends the loop through the [return] of the handler, the thread
    ends and nothing is committed, where the backup copy skips the line
    and commits "Hello". *)
Theorem malformed_line_ends_stream_in_main_copy :
  let ls := [text_line "He"; BadJson; text_line "llo"] in
  let st := run [NewChat "t0"; TypeInput "hi"; Send "t1"] (fresh MainCopy) in
  (∃ o, process MainCopy ls = Surface o) ∧
  process BackupCopy ls = Commit "Hello" ∧
  chat_sessions (run (response 0 ls "t2") st) = chat_sessions st ∧
  threads (run (response 0 ls "t2") st) = [Finished].
Proof. split_and!; [by eexists | by vm_compute..]. Qed.

(** The backup copy skips a malformed line wherever it stands; the main
    copy leaves the loop at the first one it reaches. *)
Lemma backup_skips_malformed (text : string) (pre post : list line) :
  run_lines backup_copy text (pre ++ BadJson :: post) =
  run_lines backup_copy text (pre ++ post).
Proof.
  rewrite !run_lines_app. by destruct (run_lines backup_copy text pre).
Qed.

Lemma main_stops_at_malformed (acc acc' : list json) (pre post : list line) :
  run_lines main_copy acc pre = Continue acc' →
  ∃ o, run_lines main_copy acc (pre ++ BadJson :: post) = Return o.
Proof. intros H. rewrite run_lines_app, H. by eexists. Qed.

(** ** Sending while a stream is in progress *)

Lemma validate_send_conditions_ok {F : flavour} (st : App F) :
  (validate_send_conditions st).1 = can_send st.
Proof.
  unfold validate_send_conditions, can_send.
  destruct (model_chosen st); [|reflexivity]. cbn [negb andb].
  destruct (existsb _ (model_options st)); [|reflexivity]. cbn [negb andb].
  by destruct (String.eqb _ _).
Qed.

Lemma validate_send_conditions_sessions {F : flavour} (st : App F) :
  chat_sessions (validate_send_conditions st).2 = chat_sessions st ∧
  current_chat_id (validate_send_conditions st).2 = current_chat_id st ∧
  threads (validate_send_conditions st).2 = threads st.
Proof.
  unfold validate_send_conditions.
  destruct (model_chosen st); [|done]. cbn [negb].
  destruct (existsb _ (model_options st)); [|done]. cbn [negb].
  by destruct (String.eqb _ _).
Qed.

Lemma handle_send_message_threads {F : flavour} (now : string) (st : App F) :
  threads (handle_send_message now st) =
  if can_send st then threads st ++ [Streaming (acc0 F)] else threads st.
Proof.
  rewrite <- validate_send_conditions_ok. unfold handle_send_message, display_user_message.
  destruct (validate_send_conditions_sessions st) as (_ & _ & Hth).
  destruct (validate_send_conditions st) as [ok st1]. cbn [fst snd] in *.
  destruct ok; [|exact Hth]. cbn. by rewrite add_message_threads, Hth.
Qed.

(** C4, counterexample.  One chat is current and the thread of its first
    prompt has accumulated "He"; a second prompt sent now is accepted,
    and two threads are streaming for the same chat. *)
Lemma second_send_is_not_rejected :
  let st := set_chat_input "again" (one_chat_streaming BackupCopy) in
  current_chat_id st = Some 1 ∧
  threads st = [Streaming (F := BackupCopy) "He"] ∧
  current_chat_id (handle_send_message "t2" st) = Some 1 ∧
  threads (handle_send_message "t2" st) =
    [Streaming (F := BackupCopy) "He"; Streaming (F := BackupCopy) ""].
Proof. by vm_compute. Qed.

(** C4, amended.  In both copies a send is turned down only for want of a
    selected model, of that model among the options of the dropdown, or
    of a non-blank input; [validate_send_conditions] does not look at the
    threads.  A send that passes starts one more thread with an empty
    accumulator next to the threads already streaming, whose accumulated
    texts stay as they are; a send that is turned down starts no thread
    and leaves the sessions alone. *)
Theorem send_ignores_streams_in_progress
    (c : copy) (st : App c) (now : string) :
  let ok := (validate_send_conditions st).1 in
  ok = can_send st ∧
  (∀ ts, (validate_send_conditions (set_threads ts st)).1 = ok) ∧
  threads (handle_send_message now st) =
    (if ok then threads st ++ [Streaming (acc0 c)] else threads st) ∧
  (ok = false →
   chat_sessions (handle_send_message now st) = chat_sessions st).
Proof.
  cbv zeta. split_and!.
  - apply validate_send_conditions_ok.
  - intros ts. by rewrite !validate_send_conditions_ok.
  - rewrite validate_send_conditions_ok. apply handle_send_message_threads.
  - unfold handle_send_message, display_user_message.
    destruct (validate_send_conditions_sessions st) as (Hss & _ & _).
    destruct (validate_send_conditions st) as [ok st1]. cbn [fst snd] in *.
    by intros ->.
Qed.

Lemma send_ignores_streams_in_progress_witness :
  let st := set_chat_input "   " (one_chat_streaming MainCopy) in
  (validate_send_conditions st).1 = false ∧
  chat_sessions (handle_send_message "t2" st) = chat_sessions st.
Proof.
  split; [reflexivity|].
  apply (send_ignores_streams_in_progress MainCopy
           (set_chat_input "   " (one_chat_streaming MainCopy)) "t2").
  reflexivity.
Defined.

(** ** Claims on the session store *)


(** C7. The document that [save_chat_history] writes for a list of
    sessions reads back as that list: ids, names, time stamps, and the
    messages of each session in their order with their senders and texts;
    an application that starts on the file written by another holds the
    sessions of that other. *)
Theorem save_then_load_round_trip (F : flavour) (st starting : App F) :
  sessions_of_json (sessions_to_json (chat_sessions st)) =
    Some (chat_sessions st) ∧
  chat_sessions <$>
    load_chat_history
      (set_history_file (history_file (save_chat_history st)) starting) =
    Some (chat_sessions st).
Proof.
  split; [apply sessions_of_to_json|].
  unfold load_chat_history. cbn [history_file save_chat_history set_history_file].
  rewrite sessions_of_to_json. reflexivity.
Qed.

(** C8, counterexample.  With no session in the store the call returns
    the state it was given: nothing is appended and no error is shown;
    [handle_send_message], its caller, goes on to start the thread. *)
Lemma append_without_session_is_silent :
  let st := set_chat_input "hi" (fresh MainCopy) in
  current_session st = None ∧
  add_message_to_session "user" "hi" "t0" st = st ∧
  handle_send_message "t0" st = set_chat_input "" (process_ai_response st).
Proof. by vm_compute. Qed.

(** C8, amended.  When no session of the store has the current id,
    [add_message_to_session] does nothing and reports nothing: the state,
    with its record of the errors shown, is unchanged.  When a session
    has the current id, the message is appended at the end of the
    messages of the first such session; the messages that were there keep
    their order and the other sessions are untouched. *)
Theorem add_message_appends_or_ignores
    (F : flavour) (st : App F) (sender text now : string) :
  let m := {| msg_sender := sender; msg_text := text;
              msg_timestamp := now |} in
  ((∀ s, s ∈ chat_sessions st → current_chat_id st ≠ Some (session_id s)) →
   add_message_to_session sender text now st = st) ∧
  (∀ pre s post,
     chat_sessions st = pre ++ s :: post →
     current_chat_id st = Some (session_id s) →
     (∀ p, p ∈ pre → session_id p ≠ session_id s) →
     chat_sessions (add_message_to_session sender text now st) =
       pre ++ append_message m s :: post ∧
     session_messages (append_message m s) = session_messages s ++ [m] ∧
     shown (add_message_to_session sender text now st) = shown st).
Proof.
  split.
  - intros H. by apply add_message_no_current, current_session_None.
  - intros pre s post Hss Hcur Hpre.
    unfold add_message_to_session.
    rewrite (current_session_first st pre post s Hss Hcur Hpre).
    cbn. rewrite Hss. split_and!; [|done..].
    replace (length pre) with (length pre + 0)%nat by lia.
    by rewrite insert_app_r.
Qed.

Lemma add_message_appends_or_ignores_witness :
  let st := run [NewChat "t0"; NewChat "t1"; LoadChat 1] (fresh BackupCopy) in
  add_message_to_session "user" "hi" "t2" (load_chat 7 st) = load_chat 7 st ∧
  session_messages <$>
    chat_sessions (add_message_to_session "user" "hi" "t2" st) =
  [[{| msg_sender := "user"; msg_text := "hi"; msg_timestamp := "t2" |}]; []].
Proof.
  split.
  - apply (add_message_appends_or_ignores BackupCopy
             (load_chat 7 (run [NewChat "t0"; NewChat "t1"; LoadChat 1]
                             (fresh BackupCopy))) "user" "hi" "t2").
    apply Forall_forall. repeat (constructor; [by vm_compute|]). constructor.
  - pose proof (proj2 (add_message_appends_or_ignores BackupCopy
             (run [NewChat "t0"; NewChat "t1"; LoadChat 1] (fresh BackupCopy))
             "user" "hi" "t2") []
             {| session_id := 1; session_name := "Chat 1";
                session_messages := []; session_created_at := "t0" |}
             [{| session_id := 2; session_name := "Chat 2";
                 session_messages := []; session_created_at := "t1" |}]
             eq_refl eq_refl) as H.
    destruct H as (H & _ & _).
    + intros p Hp. by apply elem_of_nil in Hp.
    + rewrite H. reflexivity.
Defined.

(** C9, counterexample.  After a new chat and a prompt sent in it the
    store holds the prompt as a message of the chat, and the file still
    holds the chat without messages. *)
Lemma append_leaves_history_file_stale :
  let st := run [NewChat "t0"; TypeInput "hi"; Send "t1"] (fresh MainCopy) in
  session_messages <$> chat_sessions st =
    [[{| msg_sender := "user"; msg_text := "hi"; msg_timestamp := "t1" |}]] ∧
  (sessions_of_json <$> history_file st) =
    Some (Some [{| session_id := 1; session_name := "Chat 1";
                   session_messages := []; session_created_at := "t0" |}]) ∧
  history_file st ≠ Some (sessions_to_json (chat_sessions st)).
Proof. split_and!; [by vm_compute..|]. vm_compute. discriminate. Qed.

(** C9, amended.  [handle_new_chat] and [delete_chat] rewrite the file in
    full: after either, the file holds the document of the sessions in
    memory.  [add_message_to_session] does not touch the file. *)
Theorem history_file_written_on_create_and_delete
    (F : flavour) (st : App F) :
  (∀ now, history_file (handle_new_chat now st) =
          Some (sessions_to_json (chat_sessions (handle_new_chat now st)))) ∧
  (∀ cid, history_file (delete_chat cid st) =
          Some (sessions_to_json (chat_sessions (delete_chat cid st)))) ∧
  (∀ sender text now,
     history_file (add_message_to_session sender text now st) =
     history_file st).
Proof.
  split_and!.
  - done.
  - intros cid. unfold delete_chat. cbn. by case_bool_decide.
  - intros sender text now. apply add_message_history_file.
Qed.

(** C10. [delete_chat] removes every session with the given id, so all
    the sessions that share an id go at once, and it keeps the others in
    the order they had: the sessions left are the longest sublist of the
    store without that id.  Three chats, 1 deleted and a fourth chat
    created give the ids 2, 3, 3; deleting 3 leaves the chat 2 alone. *)
Theorem delete_chat_removes_every_match
    (F : flavour) (st : App F) (cid : Z) :
  let left := chat_sessions (delete_chat cid st) in
  (∀ s, s ∈ left ↔ s ∈ chat_sessions st ∧ session_id s ≠ cid) ∧
  left `sublist_of` chat_sessions st ∧
  (∀ k, k `sublist_of` chat_sessions st →
        Forall (λ s, session_id s ≠ cid) k → k `sublist_of` left) ∧
  session_id <$>
    chat_sessions
      (run [NewChat "t1"; NewChat "t2"; NewChat "t3"; DeleteChat 1;
            NewChat "t4"] (fresh F)) = [2; 3; 3] ∧
  session_id <$>
    chat_sessions
      (run [NewChat "t1"; NewChat "t2"; NewChat "t3"; DeleteChat 1;
            NewChat "t4"; DeleteChat 3] (fresh F)) = [2].
Proof.
  cbv zeta. rewrite delete_chat_sessions. split_and!; [| | |done..].
  - intros s. rewrite list_elem_of_filter. tauto.
  - apply sublist_filter.
  - intros k. apply sublist_filter_max.
Qed.

Lemma delete_chat_removes_every_match_witness :
  let st := run [NewChat "t1"; NewChat "t2"] (fresh MainCopy) in
  [{| session_id := 2; session_name := "Chat 2"; session_messages := [];
      session_created_at := "t2" |}]
    `sublist_of` chat_sessions (delete_chat 1 st).
Proof.
  apply (delete_chat_removes_every_match MainCopy
           (run [NewChat "t1"; NewChat "t2"] (fresh MainCopy)) 1).
  - apply sublist_cons, sublist_skip, sublist_nil.
  - by repeat constructor.
Defined.

(** ** Deleting the current session under a running stream *)

Section Unset.

Context {F : flavour}.
Implicit Types (st : App F) (e : event) (es : list event).

Lemma deliver_store tid (l : line) st :
  chat_sessions (deliver tid l st) = chat_sessions st ∧
  current_chat_id (deliver tid l st) = current_chat_id st.
Proof.
  unfold deliver. destruct (threads st !! tid) as [[acc|]|]; [|done..].
  destruct (step F acc l) as [acc'|[n|]]; done.
Qed.

Lemma abort_store tid st :
  chat_sessions (abort tid st) = chat_sessions st ∧
  current_chat_id (abort tid st) = current_chat_id st.
Proof. unfold abort. by destruct (threads st !! tid) as [[acc|]|]. Qed.

Lemma request_raises_store tid st :
  chat_sessions (request_raises tid st) = chat_sessions st ∧
  current_chat_id (request_raises tid st) = current_chat_id st.
Proof. unfold request_raises. by destruct (threads st !! tid) as [[acc|]|]. Qed.





End Unset.




(** * Further properties of the code *)

(** ** The two loops compared *)

Lemma error_branch_same {A B : Type} (a : A) (b : B) (chunk : json) :
  match error_branch a chunk, error_branch b chunk with
  | Continue a', Continue b' => a' = a ∧ b' = b
  | Return o, Return o' => o = o'
  | _, _ => False
  end.
Proof. unfold error_branch. by destruct (py_in "error" chunk) as [[]|]. Qed.

Lemma plain_step (full_response : list json) (text : string) (l : line) :
  plain l = true → py_join full_response = Some text →
  match Main.step full_response l, Backup.step text l with
  | Continue full_response', Continue text' =>
      py_join full_response' = Some text'
  | Return o, Return o' => o = o'
  | _, _ => False
  end.
Proof.
  intros Hl Hacc. destruct l as [| | |chunk]; try done.
  cbn [Main.step Backup.step].
  pose proof (error_branch_same full_response text chunk) as Herr.
  destruct (py_in "response" chunk) as [[]|] eqn:Hin; [|by
    destruct (error_branch full_response chunk), (error_branch text chunk);
    destruct_and?; subst|done].
  clear Herr. destruct chunk as [| | | |items|d]; cbn in Hin |- *; try done.
  change (plain (Parsed (JDict d)))
    with (match dict_get "response" d with
          | Some (JList _) | Some (JDict _) => false
          | _ => true
          end) in Hl.
  destruct (dict_get "response" d) as [[| | |s| |]|]; cbn; try done.
  apply py_join_app; [exact Hacc | apply py_join_chars].
Qed.

Lemma plain_run_lines (full_response : list json) (text : string)
    (ls : list line) :
  Forall (λ l, plain l = true) ls → py_join full_response = Some text →
  match run_lines main_copy full_response ls,
        run_lines backup_copy text ls with
  | Continue full_response', Continue text' =>
      py_join full_response' = Some text'
  | Return o, Return o' => o = o'
  | _, _ => False
  end.
Proof.
  intros Hls. revert full_response text.
  induction Hls as [|l ls Hl _ IH]; intros fr text Hacc; [exact Hacc|].
  cbn [run_lines step main_copy backup_copy].
  pose proof (plain_step fr text l Hl Hacc) as Hstep.
  destruct (Main.step fr l) as [fr'|o], (Backup.step text l) as [text'|o'];
    try done.
  by apply IH.
Qed.

(** X1. On a response without a line of malformed JSON and without a
    ["response"] that is a list or an object, the two copies end alike:
    both commit, and the same text, or neither commits; and both show
    the error of an error fragment, and the same one, or neither does. *)
Theorem copies_agree_on_plain_responses (ls : list line) :
  Forall (λ l, plain l = true) ls →
  commit_of (process MainCopy ls) = commit_of (process BackupCopy ls) ∧
  ai_error_of (process MainCopy ls) = ai_error_of (process BackupCopy ls).
Proof.
  intros Hls. unfold process.
  pose proof (plain_run_lines [] "" ls Hls eq_refl) as H.
  cbn [flavour_of acc0 main_copy backup_copy finish] in *.
  destruct (run_lines main_copy [] ls) as [fr|o],
           (run_lines backup_copy "" ls) as [text|o']; try done.
  - unfold Main.finish, Backup.finish. by rewrite H.
  - by subst.
Qed.

Lemma copies_agree_on_plain_responses_witness :
  let ls := [text_line "He"; Blank; Parsed (JDict [("done", JBool true)]);
             text_line "llo"; Parsed (JDict [("response", JNum 1)]);
             text_line "!"] in
  commit_of (process MainCopy ls) = commit_of (process BackupCopy ls) ∧
  ai_error_of (process MainCopy ls) = ai_error_of (process BackupCopy ls).
Proof.
  apply (copies_agree_on_plain_responses
           [text_line "He"; Blank; Parsed (JDict [("done", JBool true)]);
            text_line "llo"; Parsed (JDict [("response", JNum 1)]);
            text_line "!"]).
  repeat constructor.
Defined.

(** ** Lines that carry nothing *)

Lemma skippable_step (c : copy) (acc : Acc c) (l : line) :
  skippable l = true → step c acc l = Continue acc.
Proof.
  destruct l as [| | |chunk]; try done; [by destruct c|].
  intros [Hr He]%bool_decide_eq_true.
  destruct c; cbn [step flavour_of main_copy backup_copy Main.step Backup.step];
    rewrite Hr; unfold error_branch; by rewrite He.
Qed.

(** X2. Both loops pass over an empty line and over a chunk that holds
    neither ["response"] nor ["error"], wherever it stands in the
    response: the loop ends as it does without the line. *)
Theorem skippable_line_changes_nothing
    (c : copy) (acc : Acc c) (pre post : list line) (l : line) :
  skippable l = true →
  run_lines c acc (pre ++ l :: post) = run_lines c acc (pre ++ post) ∧
  process c (pre ++ l :: post) = process c (pre ++ post).
Proof.
  intros Hl.
  assert (∀ a, run_lines c a (pre ++ l :: post) = run_lines c a (pre ++ post))
    as H.
  { intros a. rewrite !run_lines_app. destruct (run_lines c a pre); [|done].
    cbn [run_lines]. by rewrite skippable_step. }
  split; [apply H|]. unfold process. by rewrite H.
Qed.

Lemma skippable_line_changes_nothing_witness :
  process MainCopy
    [text_line "He"; Parsed (JDict [("done", JBool false)]); text_line "llo"]
  = process MainCopy [text_line "He"; text_line "llo"].
Proof.
  apply (skippable_line_changes_nothing MainCopy []
           [text_line "He"] [text_line "llo"]
           (Parsed (JDict [("done", JBool false)]))).
  reflexivity.
Defined.

Lemma skippable_run_lines (c : copy) (acc : Acc c) (ls : list line) :
  Forall (λ l, skippable l = true) ls → run_lines c acc ls = Continue acc.
Proof.
  induction 1 as [|l ls Hl _ IH]; [done|].
  cbn [run_lines]. by rewrite skippable_step.
Qed.

(** X3. A response without any text (empty lines and chunks with neither
    key, or no line at all) is not an error: both copies commit the empty
    text, and the current session receives a message of the assistant
    with the text [""]. *)
Theorem empty_response_commits_empty_message
    (c : copy) (ls : list line) (st : App c) (tid : nat) (now : string)
    (i : nat) (s : Session) :
  Forall (λ l, skippable l = true) ls →
  threads st !! tid = Some (Streaming (acc0 c)) →
  current_session st = Some (i, s) →
  process c ls = Commit "" ∧
  chat_sessions (run (response tid ls now) st) =
    <[i := append_message
             {| msg_sender := "ai"; msg_text := ""; msg_timestamp := now |} s]>
      (chat_sessions st).
Proof.
  intros Hls Hth Hcur.
  pose proof (skippable_run_lines c (acc0 c) ls Hls) as Hrun.
  split; [unfold process; by rewrite Hrun, finish_acc0|].
  rewrite (run_response_continue _ _ _ _ _ _ Hth Hrun finish_acc0).
  unfold add_message_to_session.
  change (current_session (set_thread tid Finished st))
    with (current_session st).
  by rewrite Hcur.
Qed.

Lemma empty_response_commits_empty_message_witness :
  let st := run [NewChat "t0"; TypeInput "hi"; Send "t1"] (fresh BackupCopy) in
  session_messages <$>
    chat_sessions
      (run (response 0 [Parsed (JDict [("done", JBool true)])] "t2") st) =
  [[{| msg_sender := "user"; msg_text := "hi"; msg_timestamp := "t1" |};
    {| msg_sender := "ai"; msg_text := ""; msg_timestamp := "t2" |}]].
Proof.
  pose proof (empty_response_commits_empty_message BackupCopy
    [Parsed (JDict [("done", JBool true)])]
    (run [NewChat "t0"; TypeInput "hi"; Send "t1"] (fresh BackupCopy))
    0%nat "t2" 0%nat
    {| session_id := 1; session_name := "Chat 1";
       session_messages :=
         [{| msg_sender := "user"; msg_text := "hi"; msg_timestamp := "t1" |}];
       session_created_at := "t0" |}) as H.
  destruct H as [_ H]; [by repeat constructor|reflexivity..|].
  cbv zeta. rewrite H. reflexivity.
Defined.

(** ** The accumulators *)

Lemma backup_step_grows (text text' : string) (l : line) :
  Backup.step text l = Continue text' → ∃ u, text' = text +:+ u.
Proof.
  destruct l as [| | |chunk]; cbn [Backup.step].
  - intros [= <-]. exists "". by rewrite append_nil_r.
  - done.
  - intros [= <-]. exists "". by rewrite append_nil_r.
  - destruct (py_in "response" chunk) as [[]|]; [| |done].
    + destruct (py_getitem "response" chunk) as [[| | |s| |]|]; try done.
      intros [= <-]. by exists s.
    + unfold error_branch. destruct (py_in "error" chunk) as [[]|]; try done.
      intros [= <-]. exists "". by rewrite append_nil_r.
Qed.

Lemma main_step_grows (full_response full_response' : list json) (l : line) :
  Main.step full_response l = Continue full_response' →
  full_response `prefix_of` full_response'.
Proof.
  destruct l as [| | |chunk]; cbn [Main.step]; try done.
  - by intros [= <-].
  - destruct (py_in "response" chunk) as [[]|]; [| |done].
    + destruct (py_getitem "response" chunk) as [v|]; [|done].
      destruct (py_iter v) as [items|]; [|done].
      intros [= <-]. by exists items.
    + unfold error_branch. destruct (py_in "error" chunk) as [[]|]; try done.
      by intros [= <-].
Qed.

(** X4. No line takes anything back: while the loop goes on, the text of
    the backup copy is its earlier text followed by more text, and the
    list of the main copy is its earlier list followed by more items, in
    the order of arrival. *)
Theorem accumulators_only_grow (ls : list line) :
  (∀ text text',
     run_lines backup_copy text ls = Continue text' →
     ∃ u, text' = text +:+ u) ∧
  (∀ full_response full_response',
     run_lines main_copy full_response ls = Continue full_response' →
     full_response `prefix_of` full_response').
Proof.
  split.
  - induction ls as [|l ls IH]; intros text text'; cbn [run_lines].
    + intros [= <-]. exists "". by rewrite append_nil_r.
    + cbn [step backup_copy].
      destruct (Backup.step text l) as [text1|] eqn:Hstep; [|done].
      intros (u & ->)%IH. apply backup_step_grows in Hstep as [v ->].
      exists (v +:+ u). apply append_assoc.
  - induction ls as [|l ls IH]; intros fr fr'; cbn [run_lines].
    + by intros [= <-].
    + cbn [step main_copy].
      destruct (Main.step fr l) as [fr1|] eqn:Hstep; [|done].
      intros Hrest%IH. apply main_step_grows in Hstep. by etrans.
Qed.

Lemma accumulators_only_grow_witness :
  (∃ u, "Hello" = "He" +:+ u) ∧
  [JStr "H"; JStr "e"] `prefix_of`
    [JStr "H"; JStr "e"; JStr "l"; JStr "l"; JStr "o"].
Proof.
  destruct (accumulators_only_grow [Blank; text_line "llo"]) as [Hb Hm].
  split; [exact (Hb "He" "Hello" eq_refl)|].
  exact (Hm [JStr "H"; JStr "e"]
           [JStr "H"; JStr "e"; JStr "l"; JStr "l"; JStr "o"] eq_refl).
Defined.

(** ** Threads and events *)

(** X5. For a thread that has just been started, reading a whole response
    event by event comes to what [process] says of the response: the
    commit of its text to the session current at the end, or the error
    of an error fragment shown, or nothing at all, when the thread
    leaves through the handler of an exception or when the join of the
    main copy raises; in each case the thread has ended. *)
Theorem response_does_what_process_says
    (F : flavour) (st : App F) (tid : nat) (ls : list line) (now : string) :
  threads st !! tid = Some (Streaming (acc0 F)) →
  run (response tid ls now) st =
  match process F ls with
  | Commit text =>
      add_message_to_session "ai" text now (set_thread tid Finished st)
  | Surface o => show_if o (set_thread tid Finished st)
  | JoinRaised => set_thread tid Finished st
  end.
Proof.
  intros Hth. unfold process.
  destruct (run_lines F (acc0 F) ls) as [acc|o] eqn:Hrun.
  - destruct (finish F acc) as [text|] eqn:Hfin.
    + by apply (run_response_continue tid ls now acc text st).
    + rewrite run_response, (run_deliver _ _ _ _ Hth), Hrun.
      unfold exhaust. rewrite (set_thread_lookup _ _ _ _ Hth), Hfin.
      apply set_thread_twice.
  - by apply run_response_return.
Qed.

Lemma response_does_what_process_says_witness :
  let st := run [NewChat "t0"; TypeInput "hi"; Send "t1"] (fresh MainCopy) in
  let ls := [Parsed (JDict [("response", JList [JNum 1])])] in
  process MainCopy ls = JoinRaised ∧
  run (response 0 ls "t2") st = set_thread 0 Finished st.
Proof.
  split; [reflexivity|].
  exact (response_does_what_process_says MainCopy
           (run [NewChat "t0"; TypeInput "hi"; Send "t1"] (fresh MainCopy))
           0%nat [Parsed (JDict [("response", JList [JNum 1])])] "t2"
           eq_refl).
Defined.

Section Isolation.

Context {F : flavour}.
Implicit Types (st : App F) (tid : nat) (t : thread F) (e : event).

Lemma after_lines_nil t : after_lines t [] = t.
Proof. by destruct t. Qed.

Lemma after_lines_app t (ls1 ls2 : list line) :
  after_lines t (ls1 ++ ls2) = after_lines (after_lines t ls1) ls2.
Proof.
  destruct t as [acc|]; [|done]. cbn [after_lines]. rewrite run_lines_app.
  by destruct (run_lines F acc ls1).
Qed.

Lemma lines_of_cons tid e (es : list event) :
  lines_of tid (e :: es) = lines_of tid [e] ++ lines_of tid es.
Proof. apply (omap_app _ [e] es). Qed.

Lemma threads_delete_chat cid st : threads (delete_chat cid st) = threads st.
Proof. unfold delete_chat. cbn. by case_bool_decide. Qed.

Lemma threads_exhaust_other tid tid' now st :
  tid' ≠ tid → threads (exhaust tid' now st) !! tid = threads st !! tid.
Proof.
  intros Hne. unfold exhaust.
  destruct (threads st !! tid') as [[acc|]|]; [|done..].
  destruct (finish F acc); rewrite ?add_message_threads; cbn;
    by rewrite list_lookup_insert_ne.
Qed.

Lemma threads_abort_other tid tid' st :
  tid' ≠ tid → threads (abort tid' st) !! tid = threads st !! tid.
Proof.
  intros Hne. unfold abort.
  destruct (threads st !! tid') as [[acc|]|]; [|done..].
  cbn. by rewrite list_lookup_insert_ne.
Qed.

Lemma threads_request_raises_other tid tid' st :
  tid' ≠ tid → threads (request_raises tid' st) !! tid = threads st !! tid.
Proof.
  intros Hne. unfold request_raises.
  destruct (threads st !! tid') as [[acc|]|]; [|done..].
  cbn. by rewrite list_lookup_insert_ne.
Qed.

Lemma threads_deliver_other tid tid' (l : line) st :
  tid' ≠ tid → threads (deliver tid' l st) !! tid = threads st !! tid.
Proof.
  intros Hne. unfold deliver.
  destruct (threads st !! tid') as [[acc|]|]; [|done..].
  destruct (step F acc l) as [acc'|o]; rewrite ?threads_show_if; cbn;
    by rewrite list_lookup_insert_ne.
Qed.

Lemma threads_deliver_same tid (l : line) t st :
  threads st !! tid = Some t →
  threads (deliver tid l st) !! tid = Some (after_lines t [l]).
Proof.
  intros Hth. unfold deliver. rewrite Hth.
  destruct t as [acc|]; [|done]. cbn [after_lines run_lines].
  destruct (step F acc l) as [acc'|o]; rewrite ?threads_show_if;
    by eapply set_thread_lookup.
Qed.

(** What one event does to a thread whose response it does not end. *)
Lemma handle_thread tid e t st :
  threads st !! tid = Some t → ends tid e = false →
  threads (handle e st) !! tid = Some (after_lines t (lines_of tid [e])).
Proof.
  intros Hth He.
  destruct e as [now|cid|cid|s|now|tid' l|tid' now|tid'|tid'];
    cbn [handle].
  - by rewrite after_lines_nil.
  - by rewrite after_lines_nil.
  - by rewrite threads_delete_chat, after_lines_nil.
  - by rewrite after_lines_nil.
  - rewrite handle_send_message_threads, after_lines_nil.
    destruct (can_send st); [|done]. by apply lookup_app_l_Some.
  - cbn [lines_of omap list_omap]. case_bool_decide as Htid.
    + subst tid'. by apply threads_deliver_same.
    + cbn. by rewrite threads_deliver_other, after_lines_nil.
  - cbn in He. apply bool_decide_eq_false in He.
    by rewrite threads_exhaust_other, after_lines_nil.
  - cbn in He. apply bool_decide_eq_false in He.
    by rewrite threads_abort_other, after_lines_nil.
  - cbn in He. apply bool_decide_eq_false in He.
    by rewrite threads_request_raises_other, after_lines_nil.
Qed.

End Isolation.

(** X6. A thread is touched by its own lines only.  Whatever happens in
    between (chats created, opened or deleted, prompts typed and sent,
    lines and ends of other threads), as long as its own response is not
    ended the thread stands where the loop stands after the lines
    delivered to it, in their order: its accumulated text is that of its
    own fragments. *)
Theorem stream_is_isolated_from_other_events
    (F : flavour) (st : App F) (tid : nat) (t : thread F) (es : list event) :
  threads st !! tid = Some t →
  Forall (λ e, ends tid e = false) es →
  threads (run es st) !! tid = Some (after_lines t (lines_of tid es)).
Proof.
  intros Hth Hes. revert st t Hth.
  induction Hes as [|e es He _ IH]; intros st t Hth.
  - by rewrite after_lines_nil.
  - rewrite lines_of_cons, after_lines_app.
    change (run (e :: es) st) with (run es (handle e st)).
    apply IH. by apply handle_thread.
Qed.

Lemma stream_is_isolated_from_other_events_witness :
  let st := one_chat_streaming BackupCopy in
  let es := [TypeInput "again"; Send "t2"; Deliver 1 (text_line "xyz");
             NewChat "t3"; Deliver 0 (text_line "llo"); DeleteChat 1;
             Exhaust 1 "t4"] in
  threads (run es st) !! 0%nat = Some (Streaming (F := BackupCopy) "Hello").
Proof.
  exact (stream_is_isolated_from_other_events BackupCopy
           (one_chat_streaming BackupCopy) 0%nat
           (Streaming (F := BackupCopy) "He")
           [TypeInput "again"; Send "t2"; Deliver 1 (text_line "xyz");
            NewChat "t3"; Deliver 0 (text_line "llo"); DeleteChat 1;
            Exhaust 1 "t4"]
           eq_refl ltac:(repeat constructor)).
Defined.

(** ** The ids of the store *)

Section Ids.

Context {F : flavour}.
Implicit Types (st : App F) (e : event) (es : list event).

Lemma current_session_lookup st (i : nat) (s : Session) :
  current_session st = Some (i, s) →
  chat_sessions st !! i = Some s ∧ current_chat_id st = Some (session_id s).
Proof. unfold current_session. intros (? & ? & _)%list_find_Some. done. Qed.

Lemma add_message_ids sender text now st :
  session_ids (add_message_to_session sender text now st) = session_ids st.
Proof.
  unfold add_message_to_session, session_ids.
  destruct (current_session st) as [[i s]|] eqn:Hcur; [|done].
  apply current_session_lookup in Hcur as [Hi _]. cbn.
  rewrite list_fmap_insert. apply list_insert_id.
  by rewrite list_lookup_fmap, Hi.
Qed.

Lemma length_session_ids st :
  length (session_ids st) = length (chat_sessions st).
Proof. apply length_fmap. Qed.

Lemma filter_session_ids (cid : Z) (ss : list Session) :
  session_id <$> filter (λ s, session_id s ≠ cid) ss =
  filter (λ i, i ≠ cid) (session_id <$> ss).
Proof.
  induction ss as [|s ss IH]; [done|]. cbn [fmap list_fmap].
  rewrite !filter_cons. destruct (decide (session_id s ≠ cid)); cbn;
    by rewrite <- IH.
Qed.

Lemma handle_send_message_ids now st :
  session_ids (handle_send_message now st) = session_ids st.
Proof.
  unfold handle_send_message, display_user_message.
  destruct (validate_send_conditions_sessions st) as (Hss & _ & _).
  destruct (validate_send_conditions st) as [ok st1]. cbn [fst snd] in *.
  destruct ok.
  - change (session_ids (set_chat_input "" (process_ai_response ?x)))
      with (session_ids x).
    rewrite add_message_ids. unfold session_ids. by rewrite Hss.
  - unfold session_ids. by rewrite Hss.
Qed.

Lemma exhaust_ids tid now st : session_ids (exhaust tid now st) = session_ids st.
Proof.
  unfold exhaust. destruct (threads st !! tid) as [[acc|]|]; [|done..].
  destruct (finish F acc); [|done]. by rewrite add_message_ids.
Qed.

(** How each event changes the list of the ids. *)
Lemma handle_session_ids e st :
  session_ids (handle e st) =
  match e with
  | NewChat _ => session_ids st ++ [Z.of_nat (length (chat_sessions st)) + 1]
  | DeleteChat cid => filter (λ i, i ≠ cid) (session_ids st)
  | _ => session_ids st
  end.
Proof.
  destruct e as [now|cid|cid|s|now|tid l|tid now|tid|tid]; cbn [handle].
  - unfold session_ids. cbn. by rewrite fmap_app.
  - done.
  - unfold session_ids. rewrite delete_chat_sessions. apply filter_session_ids.
  - done.
  - apply handle_send_message_ids.
  - unfold session_ids. by destruct (deliver_store tid l st) as [-> _].
  - apply exhaust_ids.
  - unfold session_ids. by destruct (abort_store tid st) as [-> _].
  - unfold session_ids. by destruct (request_raises_store tid st) as [-> _].
Qed.

Lemma handle_consecutive e st :
  is_delete e = false →
  session_ids st = seqZ 1 (Z.of_nat (length (chat_sessions st))) →
  session_ids (handle e st) =
    seqZ 1 (Z.of_nat (length (chat_sessions (handle e st)))).
Proof.
  intros He Hids. rewrite <- (length_session_ids (handle e st)).
  rewrite handle_session_ids.
  destruct e; try discriminate; rewrite ?length_session_ids; try done.
  rewrite length_app, length_session_ids. cbn [length].
  replace (length (chat_sessions st) + 1)%nat
    with (S (length (chat_sessions st))) by lia.
  rewrite seqZ_S, <- Hids. do 2 f_equal. lia.
Qed.

End Ids.

(** X7. As long as no chat is deleted the ids are the numbers 1, 2, ..
    in the order of the store, so no two sessions share an id: this holds
    after any events without a deletion, from a store that has it (the
    empty store at the first start does). *)
Theorem ids_are_consecutive_without_deletion
    (F : flavour) (st : App F) (es : list event) :
  session_ids st = seqZ 1 (Z.of_nat (length (chat_sessions st))) →
  Forall (λ e, is_delete e = false) es →
  session_ids (run es st) =
    seqZ 1 (Z.of_nat (length (chat_sessions (run es st)))) ∧
  NoDup (session_ids (run es st)).
Proof.
  intros Hids Hes.
  assert (session_ids (run es st) =
          seqZ 1 (Z.of_nat (length (chat_sessions (run es st))))) as H.
  { revert st Hids. induction Hes as [|e es He _ IH]; intros st Hids; [done|].
    apply IH. by apply handle_consecutive. }
  split; [exact H|]. rewrite H. apply NoDup_seqZ.
Qed.

Lemma ids_are_consecutive_without_deletion_witness :
  let es := [NewChat "t0"; TypeInput "hi"; Send "t1"; NewChat "t2";
             LoadChat 1; Deliver 0 (text_line "Hello"); Exhaust 0 "t3";
             NewChat "t4"] in
  NoDup (session_ids (run es (fresh MainCopy))).
Proof.
  apply (ids_are_consecutive_without_deletion MainCopy (fresh MainCopy)
           [NewChat "t0"; TypeInput "hi"; Send "t1"; NewChat "t2";
            LoadChat 1; Deliver 0 (text_line "Hello"); Exhaust 0 "t3";
            NewChat "t4"]); [reflexivity | repeat constructor].
Defined.

(** X8. A new chat whose id (count + 1) is already the id of a session of
    the store is shadowed by that session.  The new chat is appended
    last and made current, but [add_message_to_session] looks the
    current id up from the front of the store: the message goes to the
    older session and the new chat keeps no message. *)
Theorem new_chat_with_a_taken_id_is_shadowed
    (F : flavour) (st : App F) (now sender text t : string) :
  Z.of_nat (length (chat_sessions st)) + 1 ∈ session_ids st →
  let n := Z.of_nat (length (chat_sessions st)) + 1 in
  let new_chat :=
    {| session_id := n; session_name := "Chat " +:+ pretty n;
       session_messages := []; session_created_at := now |} in
  let st' := handle_new_chat now st in
  last (chat_sessions st') = Some new_chat ∧
  current_chat_id st' = Some n ∧
  last (chat_sessions (add_message_to_session sender text t st')) =
    Some new_chat ∧
  ∃ i s, chat_sessions st !! i = Some s ∧ session_id s = n ∧
         chat_sessions (add_message_to_session sender text t st') !! i =
         Some (append_message
                 {| msg_sender := sender; msg_text := text;
                    msg_timestamp := t |} s).
Proof.
  intros Hin. cbv zeta.
  set (n := Z.of_nat (length (chat_sessions st)) + 1) in *.
  set (new_chat := {| session_id := n; session_name := "Chat " +:+ pretty n;
                      session_messages := []; session_created_at := now |}).
  assert (chat_sessions (handle_new_chat now st) =
          chat_sessions st ++ [new_chat]) as Hss by done.
  apply list_elem_of_fmap in Hin as (s0 & Hid & Hs0).
  destruct (list_find_elem_of (λ s, Some n = Some (session_id s))
              (chat_sessions st) s0 Hs0) as [[i s] Hfind];
    [by rewrite <- Hid|].
  assert (current_session (handle_new_chat now st) = Some (i, s)) as Hcur.
  { unfold current_session. rewrite Hss. by apply list_find_app_l. }
  apply list_find_Some in Hfind as (Hi & [= Hn] & _).
  pose proof (lookup_lt_Some _ _ _ Hi) as Hlt.
  assert (chat_sessions
            (add_message_to_session sender text t (handle_new_chat now st)) =
          <[i := append_message
                   {| msg_sender := sender; msg_text := text;
                      msg_timestamp := t |} s]> (chat_sessions st)
          ++ [new_chat]) as Hadd.
  { unfold add_message_to_session. rewrite Hcur. cbn -[handle_new_chat].
    rewrite Hss. by apply insert_app_l. }
  split_and!.
  - by rewrite Hss, last_snoc.
  - done.
  - by rewrite Hadd, last_snoc.
  - exists i, s. split_and!; [done..|]. rewrite Hadd.
    rewrite lookup_app_l by (by rewrite length_insert).
    by apply list_lookup_insert_eq.
Qed.

Lemma new_chat_with_a_taken_id_is_shadowed_witness :
  let st := run [NewChat "t0"; NewChat "t1"; DeleteChat 1] (fresh MainCopy) in
  session_messages <$>
    chat_sessions (run [NewChat "t2"; TypeInput "hi"; Send "t3"] st) =
  [[{| msg_sender := "user"; msg_text := "hi"; msg_timestamp := "t3" |}]; []] ∧
  last (chat_sessions
          (add_message_to_session "user" "hi" "t3" (handle_new_chat "t2" st)))
  = Some {| session_id := 2; session_name := "Chat 2";
            session_messages := []; session_created_at := "t2" |}.
Proof.
  split; [reflexivity|].
  apply (new_chat_with_a_taken_id_is_shadowed MainCopy
           (run [NewChat "t0"; NewChat "t1"; DeleteChat 1] (fresh MainCopy))
           "t2" "user" "hi" "t3").
  apply list_elem_of_here.
Defined.

Lemma filter_keeps_all {A : Type} (P : A → Prop) `{!∀ x, Decision (P x)}
    (l : list A) :
  Forall P l → filter P l = l.
Proof.
  induction 1 as [|x l Hx _ IH]; [done|].
  by rewrite filter_cons_True, IH.
Qed.

Lemma filter_seqZ_without (cid n : Z) :
  1 ≤ cid ≤ n →
  filter (λ i, i ≠ cid) (seqZ 1 n) = seqZ 1 (cid - 1) ++ seqZ (cid + 1) (n - cid).
Proof.
  intros Hcid.
  replace n with ((cid - 1) + (1 + (n - cid))) at 1 by lia.
  rewrite seqZ_app by lia. replace (1 + (cid - 1)) with cid by lia.
  rewrite (seqZ_cons cid) by lia.
  replace (Z.pred (1 + (n - cid))) with (n - cid) by lia.
  rewrite filter_app, filter_cons_False by (intros H; by apply H).
  rewrite !filter_keeps_all; [done|..]; apply Forall_forall;
    intros k Hk%elem_of_seqZ; lia.
Qed.

(** X9. The collision of X8 comes with the first deletion that is not a
    deletion of the last chat: in a store with the ids 1, .., n, deleting
    the chat [cid] < n and creating a chat gives the new chat the id n,
    which the last of the old chats still has. *)
Theorem deletion_makes_the_next_id_collide
    (F : flavour) (st : App F) (cid : Z) (now : string) :
  let n := Z.of_nat (length (chat_sessions st)) in
  session_ids st = seqZ 1 n → 1 ≤ cid < n →
  n ∈ session_ids (delete_chat cid st) ∧
  session_ids (handle_new_chat now (delete_chat cid st)) =
    seqZ 1 (cid - 1) ++ seqZ (cid + 1) (n - cid) ++ [n] ∧
  ¬ NoDup (session_ids (handle_new_chat now (delete_chat cid st))).
Proof.
  intros n Hids Hcid.
  assert (session_ids (delete_chat cid st) =
          seqZ 1 (cid - 1) ++ seqZ (cid + 1) (n - cid)) as Hdel.
  { pose proof (handle_session_ids (DeleteChat cid) st) as H.
    cbn [handle] in H. rewrite H, Hids. apply filter_seqZ_without. lia. }
  pose proof (handle_session_ids (NewChat now) (delete_chat cid st)) as Hnew.
  cbn [handle] in Hnew.
  assert (n ∈ seqZ (cid + 1) (n - cid)) as Hn by (apply elem_of_seqZ; lia).
  assert (Z.of_nat (length (chat_sessions (delete_chat cid st))) + 1 = n)
    as Hlen.
  { rewrite <- length_session_ids, Hdel, length_app, !length_seqZ. lia. }
  split_and!.
  - rewrite Hdel. apply elem_of_app. by right.
  - rewrite Hnew, Hdel, Hlen. by rewrite <- app_assoc.
  - rewrite Hnew, Hdel, Hlen.
    rewrite <- app_assoc. intros (_ & _ & Hnd)%NoDup_app.
    apply NoDup_app in Hnd as (_ & Hdisj & _).
    apply (Hdisj n Hn), list_elem_of_here.
Qed.

Lemma deletion_makes_the_next_id_collide_witness :
  let st := run [NewChat "t0"; NewChat "t1"; NewChat "t2"] (fresh BackupCopy) in
  session_ids (handle_new_chat "t3" (delete_chat 2 st)) = [1; 3; 3].
Proof.
  pose proof (deletion_makes_the_next_id_collide BackupCopy
    (run [NewChat "t0"; NewChat "t1"; NewChat "t2"] (fresh BackupCopy))
    2 "t3" eq_refl) as H.
  destruct H as (_ & H & _); [split; by vm_compute|]. exact H.
Defined.

(** ** What the handlers keep of the store *)

Section Growth.

Context {F : flavour}.
Implicit Types (st : App F) (e : event) (es : list event).

Lemma extends_refl (s : Session) : extends s s.
Proof. by repeat split. Qed.

Lemma extends_trans (s1 s2 s3 : Session) :
  extends s1 s2 → extends s2 s3 → extends s1 s3.
Proof.
  intros (?&?&?&?) (?&?&?&?). repeat split; try congruence. by etrans.
Qed.

Lemma extends_append_message (m : Message) (s : Session) :
  extends s (append_message m s).
Proof. repeat split. by apply prefix_app_r. Qed.

Lemma add_message_extends sender text now st (i : nat) (s : Session) :
  chat_sessions st !! i = Some s →
  ∃ s', chat_sessions (add_message_to_session sender text now st) !! i
        = Some s' ∧ extends s s'.
Proof.
  intros Hi. unfold add_message_to_session.
  destruct (current_session st) as [[j sj]|] eqn:Hcur;
    [|eauto using extends_refl].
  apply current_session_lookup in Hcur as [Hj _]. cbn.
  destruct (decide (j = i)) as [->|Hne].
  - rewrite list_lookup_insert_eq by (by eapply lookup_lt_Some).
    rewrite Hi in Hj. injection Hj as <-.
    eauto using extends_append_message.
  - rewrite list_lookup_insert_ne by done. eauto using extends_refl.
Qed.

Lemma handle_extends e st (i : nat) (s : Session) :
  is_delete e = false → chat_sessions st !! i = Some s →
  ∃ s', chat_sessions (handle e st) !! i = Some s' ∧ extends s s'.
Proof.
  intros He Hi.
  destruct e as [now|cid|cid|inp|now|tid l|tid now|tid|tid];
    try discriminate; cbn [handle].
  - exists s. split; [|apply extends_refl].
    change (chat_sessions (handle_new_chat now st))
      with (chat_sessions st ++
              [{| session_id := Z.of_nat (length (chat_sessions st)) + 1;
                  session_name :=
                    "Chat " +:+ pretty (Z.of_nat (length (chat_sessions st)) + 1);
                  session_messages := []; session_created_at := now |}]).
    by apply lookup_app_l_Some.
  - eauto using extends_refl.
  - eauto using extends_refl.
  - unfold handle_send_message, display_user_message.
    destruct (validate_send_conditions_sessions st) as (Hss & _ & _).
    destruct (validate_send_conditions st) as [ok st1]. cbn [fst snd] in *.
    rewrite <- Hss in Hi. destruct ok; [|eauto using extends_refl].
    by apply add_message_extends.
  - destruct (deliver_store tid l st) as [-> _]. eauto using extends_refl.
  - unfold exhaust. destruct (threads st !! tid) as [[acc|]|];
      [|eauto using extends_refl..].
    destruct (finish F acc); [|eauto using extends_refl].
    by apply add_message_extends.
  - destruct (abort_store tid st) as [-> _]. eauto using extends_refl.
  - destruct (request_raises_store tid st) as [-> _].
    eauto using extends_refl.
Qed.

End Growth.

(** X10. Only a deletion takes anything out of the store.  Through any
    events without a deletion every session keeps its place, its id, its
    name and its creation time, and its messages are still there, in
    their order and unchanged, at the front of its messages. *)
Theorem store_only_grows_without_deletion
    (F : flavour) (st : App F) (es : list event) (i : nat) (s : Session) :
  Forall (λ e, is_delete e = false) es →
  chat_sessions st !! i = Some s →
  ∃ s', chat_sessions (run es st) !! i = Some s' ∧ extends s s'.
Proof.
  intros Hes. revert st s.
  induction Hes as [|e es He _ IH]; intros st s Hi.
  - eauto using extends_refl.
  - destruct (handle_extends e st i s He Hi) as (s1 & Hi1 & Hext1).
    destruct (IH _ _ Hi1) as (s2 & Hi2 & Hext2).
    exists s2. split; [exact Hi2|]. by eapply extends_trans.
Qed.

Lemma store_only_grows_without_deletion_witness :
  let st := run [NewChat "t0"; TypeInput "hi"; Send "t1"] (fresh MainCopy) in
  let es := [Deliver 0 (text_line "Hello"); NewChat "t2"; LoadChat 1;
             Exhaust 0 "t3"; TypeInput "more"; Send "t4"] in
  ∃ s', chat_sessions (run es st) !! 0%nat = Some s' ∧
        [{| msg_sender := "user"; msg_text := "hi"; msg_timestamp := "t1" |}]
          `prefix_of` session_messages s'.
Proof.
  destruct (store_only_grows_without_deletion MainCopy
    (run [NewChat "t0"; TypeInput "hi"; Send "t1"] (fresh MainCopy))
    [Deliver 0 (text_line "Hello"); NewChat "t2"; LoadChat 1;
     Exhaust 0 "t3"; TypeInput "more"; Send "t4"] 0%nat
    {| session_id := 1; session_name := "Chat 1";
       session_messages :=
         [{| msg_sender := "user"; msg_text := "hi"; msg_timestamp := "t1" |}];
       session_created_at := "t0" |}
    ltac:(repeat constructor) eq_refl) as (s' & Hs' & Hext).
  exists s'. split; [exact Hs'|]. apply Hext.
Defined.

(** ** The current id *)

Section Current.

Context {F : flavour}.
Implicit Types (st : App F) (e : event) (es : list event).

Lemma handle_send_message_current now st :
  current_chat_id (handle_send_message now st) = current_chat_id st.
Proof.
  unfold handle_send_message, display_user_message.
  destruct (validate_send_conditions_sessions st) as (_ & Hc & _).
  destruct (validate_send_conditions st) as [ok st1]. cbn [fst snd] in *.
  destruct ok; [|done].
  change (current_chat_id (set_chat_input "" (process_ai_response ?x)))
    with (current_chat_id x).
  by rewrite add_message_current.
Qed.

Lemma exhaust_current tid now st :
  current_chat_id (exhaust tid now st) = current_chat_id st.
Proof.
  unfold exhaust. destruct (threads st !! tid) as [[acc|]|]; [|done..].
  destruct (finish F acc); [|done]. by rewrite add_message_current.
Qed.

Lemma handle_current_listed e st :
  match e with
  | LoadChat cid => cid ∈ session_ids st
  | _ => True
  end →
  current_listed st → current_listed (handle e st).
Proof.
  intros He Hst cid. rewrite handle_session_ids.
  destruct e as [now|c|c|inp|now|tid l|tid now|tid|tid]; cbn [handle].
  - intros [= <-]. apply elem_of_app. right. apply list_elem_of_here.
  - by intros [= <-].
  - rewrite delete_chat_current. case_bool_decide as Hc; [done|].
    intros Hcur. apply list_elem_of_filter. split; [congruence|by apply Hst].
  - apply Hst.
  - rewrite handle_send_message_current. apply Hst.
  - destruct (deliver_store tid l st) as [_ ->]. apply Hst.
  - rewrite exhaust_current. apply Hst.
  - destruct (abort_store tid st) as [_ ->]. apply Hst.
  - destruct (request_raises_store tid st) as [_ ->]. apply Hst.
Qed.

End Current.

(** X11. The current id never dangles.  When every chat that is opened is
    opened from its tile (its id is the id of a session of the store at
    that moment), the current id, whenever it is set, is the id of a
    session of the store: creating a chat sets it to the new session,
    deleting the current chat unsets it, deleting another chat keeps its
    session, and nothing else touches it. *)
Theorem current_id_stays_listed
    (F : flavour) (st : App F) (es : list event) :
  current_listed st → opens_listed es st → current_listed (run es st).
Proof.
  revert st. induction es as [|e es IH]; intros st Hst Hes; [done|].
  destruct Hes as [He Hes]. apply (IH (handle e st)); [|done].
  by apply handle_current_listed.
Qed.

Lemma current_id_stays_listed_witness :
  let es := [NewChat "t0"; NewChat "t1"; LoadChat 1; DeleteChat 2;
             TypeInput "hi"; Send "t2"; DeleteChat 1; NewChat "t3"] in
  current_listed (run es (fresh MainCopy)).
Proof.
  apply (current_id_stays_listed MainCopy (fresh MainCopy)
           [NewChat "t0"; NewChat "t1"; LoadChat 1; DeleteChat 2;
            TypeInput "hi"; Send "t2"; DeleteChat 1; NewChat "t3"]).
  - intros cid H. discriminate H.
  - cbn -[elem_of]. split_and!; try exact I. apply list_elem_of_here.
Defined.

(** ** The history file *)

Section File.

Context {F : flavour}.
Implicit Types (st : App F) (e : event) (es : list event).

Lemma handle_saves e st :
  saves e = true →
  history_file (handle e st) =
  Some (sessions_to_json (chat_sessions (handle e st))).
Proof.
  destruct e; try discriminate; intros _; cbn [handle]; [done|].
  unfold delete_chat. cbn. by case_bool_decide.
Qed.

Lemma handle_keeps_file e st :
  saves e = false → history_file (handle e st) = history_file st.
Proof.
  destruct e as [now|cid|cid|inp|now|tid l|tid now|tid|tid];
    try discriminate; intros _; cbn [handle]; try done.
  - unfold handle_send_message, display_user_message, validate_send_conditions.
    destruct (model_chosen st); [|done]. cbn [negb].
    destruct (existsb _ (model_options st)); [|done]. cbn [negb].
    destruct (String.eqb _ _); [done|].
    change (history_file (set_chat_input "" (process_ai_response ?x)))
      with (history_file x).
    apply add_message_history_file.
  - unfold deliver. destruct (threads st !! tid) as [[acc|]|]; [|done..].
    by destruct (step F acc l) as [acc'|[n|]].
  - unfold exhaust. destruct (threads st !! tid) as [[acc|]|]; [|done..].
    destruct (finish F acc); [|done]. by rewrite add_message_history_file.
  - unfold abort. by destruct (threads st !! tid) as [[acc|]|].
  - unfold request_raises. by destruct (threads st !! tid) as [[acc|]|].
Qed.

Lemma run_keeps_file es st :
  Forall (λ e, saves e = false) es → history_file (run es st) = history_file st.
Proof.
  intros Hes. revert st. induction Hes as [|e es He _ IH]; intros st; [done|].
  change (run (e :: es) st) with (run es (handle e st)).
  by rewrite IH, handle_keeps_file.
Qed.

End File.

(** X12. The history file holds the store as it was at the end of the
    last creation or deletion of a chat: the prompts and answers that came
    after it are in memory only, and an application started on the file
    gets the sessions of that moment. *)
Theorem history_file_is_the_store_at_the_last_save
    (F : flavour) (st starting : App F) (e : event) (es : list event) :
  saves e = true → Forall (λ e', saves e' = false) es →
  history_file (run (e :: es) st) =
    Some (sessions_to_json (chat_sessions (handle e st))) ∧
  chat_sessions <$>
    load_chat_history
      (set_history_file (history_file (run (e :: es) st)) starting) =
    Some (chat_sessions (handle e st)).
Proof.
  intros He Hes.
  assert (history_file (run (e :: es) st) =
          Some (sessions_to_json (chat_sessions (handle e st)))) as H.
  { change (run (e :: es) st) with (run es (handle e st)).
    by rewrite run_keeps_file, handle_saves. }
  split; [exact H|]. rewrite H. unfold load_chat_history.
  cbn [history_file set_history_file]. by rewrite sessions_of_to_json.
Qed.

Lemma history_file_is_the_store_at_the_last_save_witness :
  let es := [TypeInput "hi"; Send "t1"; Deliver 0 (text_line "Hello");
             Exhaust 0 "t2"] in
  session_messages <$>
    chat_sessions (run (NewChat "t0" :: es) (fresh MainCopy)) =
  [[{| msg_sender := "user"; msg_text := "hi"; msg_timestamp := "t1" |};
    {| msg_sender := "ai"; msg_text := "Hello"; msg_timestamp := "t2" |}]] ∧
  chat_sessions <$>
    load_chat_history
      (set_history_file
         (history_file (run (NewChat "t0" :: es) (fresh MainCopy)))
         (fresh MainCopy)) =
  Some [{| session_id := 1; session_name := "Chat 1"; session_messages := [];
           session_created_at := "t0" |}].
Proof.
  split; [reflexivity|].
  apply (history_file_is_the_store_at_the_last_save MainCopy
           (fresh MainCopy) (fresh MainCopy) (NewChat "t0")
           [TypeInput "hi"; Send "t1"; Deliver 0 (text_line "Hello");
            Exhaust 0 "t2"] eq_refl).
  repeat constructor.
Defined.

(** ** Sending *)

Section Sending.

Context {F : flavour}.
Implicit Types (st : App F).

Lemma send_blank now st :
  model_chosen st = true →
  existsb (λ key, bool_decide (Some key = current_model st))
    (model_options st) = true →
  strip (chat_input st) = "" →
  handle_send_message now st = st.
Proof.
  intros Hm Ho Hs. unfold handle_send_message, validate_send_conditions.
  by rewrite Hm, Ho, Hs.
Qed.

Lemma add_message_models sender text now st :
  current_model (add_message_to_session sender text now st) = current_model st
  ∧ model_options (add_message_to_session sender text now st)
    = model_options st.
Proof.
  unfold add_message_to_session. by destruct (current_session st) as [[]|].
Qed.

End Sending.

(** X14. With a model selected that is among the options, a send with a
    blank input (empty, or white space only) changes nothing at all and
    shows nothing; and since an accepted send empties the input, a send
    repeated at once does nothing more than the first. *)
Theorem send_with_nothing_to_send_changes_nothing
    (F : flavour) (st : App F) (now now' : string) :
  model_chosen st = true →
  existsb (λ key, bool_decide (Some key = current_model st))
    (model_options st) = true →
  (strip (chat_input st) = "" → handle_send_message now st = st) ∧
  handle_send_message now' (handle_send_message now st) =
    handle_send_message now st.
Proof.
  intros Hm Ho. split; [by apply send_blank|].
  destruct (String.eqb (strip (chat_input st)) "") eqn:Hs.
  - apply String.eqb_eq in Hs. rewrite (send_blank now st Hm Ho Hs).
    by apply send_blank.
  - assert (handle_send_message now st =
            set_chat_input ""
              (process_ai_response
                 (display_user_message (strip (chat_input st)) now st))) as ->.
    { unfold handle_send_message, validate_send_conditions.
      by rewrite Hm, Ho, Hs. }
    unfold display_user_message.
    destruct (add_message_models "user" (strip (chat_input st)) now st)
      as [Hm' Ho'].
    apply send_blank; [| |done].
    + unfold model_chosen in *. cbn. by rewrite Hm'.
    + cbn. by rewrite Hm', Ho'.
Qed.

Lemma send_with_nothing_to_send_changes_nothing_witness :
  let st := set_chat_input "hi" (run [NewChat "t0"] (fresh MainCopy)) in
  handle_send_message "t2" (handle_send_message "t1" st) =
  handle_send_message "t1" st ∧
  handle_send_message "t1" (set_chat_input "  " st) = set_chat_input "  " st.
Proof.
  split.
  - apply (send_with_nothing_to_send_changes_nothing MainCopy
             (set_chat_input "hi" (run [NewChat "t0"] (fresh MainCopy)))
             "t1" "t2"); reflexivity.
  - apply (send_with_nothing_to_send_changes_nothing MainCopy
             (set_chat_input "  "
                (set_chat_input "hi" (run [NewChat "t0"] (fresh MainCopy))))
             "t1" "t1"); reflexivity.
Defined.

(** ** Deleting *)

(** X15. [delete_chat] shows "Chat deleted successfully!" whatever it is
    given: for an id that no session has, the sessions of the store are
    unchanged and the success is shown all the same.  On the store,
    deleting an id twice is deleting it once, and two deletions give the
    same store in either order. *)
Theorem delete_chat_reports_success_whatever_it_deletes
    (F : flavour) (st : App F) (cid cid' : Z) :
  shown (delete_chat cid st) = shown st ++ [ChatDeleted] ∧
  (cid ∉ session_ids st →
   chat_sessions (delete_chat cid st) = chat_sessions st) ∧
  chat_sessions (delete_chat cid (delete_chat cid st)) =
    chat_sessions (delete_chat cid st) ∧
  chat_sessions (delete_chat cid (delete_chat cid' st)) =
    chat_sessions (delete_chat cid' (delete_chat cid st)).
Proof.
  split_and!.
  - unfold delete_chat. cbn. by case_bool_decide.
  - intros Hnot. rewrite delete_chat_sessions. apply filter_keeps_all.
    apply Forall_forall. intros s Hs Hid. apply Hnot.
    apply list_elem_of_fmap. by exists s.
  - rewrite !delete_chat_sessions, list_filter_filter.
    apply list_filter_iff. tauto.
  - rewrite !delete_chat_sessions, !list_filter_filter.
    apply list_filter_iff. tauto.
Qed.

Lemma delete_chat_reports_success_whatever_it_deletes_witness :
  let st := run [NewChat "t0"; NewChat "t1"] (fresh BackupCopy) in
  chat_sessions (delete_chat 7 st) = chat_sessions st ∧
  shown (delete_chat 7 st) = [ChatDeleted].
Proof.
  destruct (delete_chat_reports_success_whatever_it_deletes BackupCopy
              (run [NewChat "t0"; NewChat "t1"] (fresh BackupCopy)) 7 7)
    as (Hshown & Hkeep & _).
  split; [|exact Hshown]. apply Hkeep.
  apply (bool_decide_unpack _). by vm_compute.
Defined.

(** ** The messages of the store *)

Section Messages.

Context {F : flavour}.
Implicit Types (st : App F) (e : event) (es : list event).

Lemma add_message_stored sender text now st :
  stored_by_handlers
    {| msg_sender := sender; msg_text := text; msg_timestamp := now |} →
  Forall (λ s, Forall stored_by_handlers (session_messages s))
    (chat_sessions st) →
  Forall (λ s, Forall stored_by_handlers (session_messages s))
    (chat_sessions (add_message_to_session sender text now st)).
Proof.
  intros Hm Hst. unfold add_message_to_session.
  destruct (current_session st) as [[i s]|] eqn:Hcur; [|done].
  apply current_session_lookup in Hcur as [Hi _]. cbn.
  apply Forall_insert; [done|]. cbn. apply Forall_app. split.
  - by apply (Forall_lookup_1 _ _ _ _ Hst Hi).
  - by constructor.
Qed.

Lemma handle_stored e st :
  Forall (λ s, Forall stored_by_handlers (session_messages s))
    (chat_sessions st) →
  Forall (λ s, Forall stored_by_handlers (session_messages s))
    (chat_sessions (handle e st)).
Proof.
  intros Hst.
  destruct e as [now|cid|cid|inp|now|tid l|tid now|tid|tid]; cbn [handle].
  - cbn. apply Forall_app. split; [done|]. by repeat constructor.
  - done.
  - rewrite delete_chat_sessions. apply Forall_forall.
    intros s [_ Hs]%list_elem_of_filter.
    by apply (proj1 (Forall_forall _ _) Hst).
  - done.
  - unfold handle_send_message, display_user_message, validate_send_conditions.
    destruct (model_chosen st); [|done]. cbn [negb].
    destruct (existsb _ (model_options st)); [|done]. cbn [negb].
    destruct (String.eqb (strip (chat_input st)) "") eqn:Hs; [done|].
    change (chat_sessions (set_chat_input "" (process_ai_response ?x)))
      with (chat_sessions x).
    apply add_message_stored; [|done]. left. split; [done|].
    by apply String.eqb_neq.
  - by destruct (deliver_store tid l st) as [-> _].
  - unfold exhaust. destruct (threads st !! tid) as [[acc|]|]; [|done..].
    destruct (finish F acc); [|done].
    apply add_message_stored; [by right | done].
  - by destruct (abort_store tid st) as [-> _].
  - by destruct (request_raises_store tid st) as [-> _].
Qed.

End Messages.

(** X16. The handlers store two kinds of messages only: a prompt with the
    sender "user" and a text that is not empty, and an answer with the
    sender "ai" (whose text may be empty).  A store that holds nothing
    else, as the empty store of the first start, holds nothing else after
    any events. *)
Theorem store_holds_prompts_and_answers_only
    (F : flavour) (st : App F) (es : list event) :
  Forall (λ s, Forall stored_by_handlers (session_messages s))
    (chat_sessions st) →
  Forall (λ s, Forall stored_by_handlers (session_messages s))
    (chat_sessions (run es st)).
Proof.
  revert st. induction es as [|e es IH]; intros st Hst; [done|].
  apply (IH (handle e st)). by apply handle_stored.
Qed.

Lemma store_holds_prompts_and_answers_only_witness :
  Forall (λ s, Forall stored_by_handlers (session_messages s))
    (chat_sessions
       (run [NewChat "t0"; TypeInput " hi "; Send "t1"; Exhaust 0 "t2"]
          (fresh MainCopy))).
Proof.
  apply (store_holds_prompts_and_answers_only MainCopy (fresh MainCopy)
           [NewChat "t0"; TypeInput " hi "; Send "t1"; Exhaust 0 "t2"]).
  constructor.
Defined.

(** ** Replacing the text of the last message *)

Lemma set_last_text_append (text : string) (m : Message) (s : Session) :
  set_last_text text (append_message m s) =
  append_message
    {| msg_sender := msg_sender m; msg_text := text;
       msg_timestamp := msg_timestamp m |} s.
Proof.
  unfold set_last_text, append_message. cbn. rewrite last_snoc. f_equal.
  rewrite length_app. cbn [length].
  replace (pred (length (session_messages s) + 1))
    with (length (session_messages s) + 0)%nat by lia.
  by rewrite insert_app_r.
Qed.

Lemma current_session_after_add {F : flavour} (st : App F)
    (sender text now : string) (i : nat) (s : Session) :
  current_session st = Some (i, s) →
  current_session (add_message_to_session sender text now st) =
  Some (i, append_message
             {| msg_sender := sender; msg_text := text;
                msg_timestamp := now |} s).
Proof.
  intros Hcur. unfold add_message_to_session. rewrite Hcur.
  unfold current_session in *. cbn.
  apply list_find_Some in Hcur as (Hi & HP & Hbefore).
  apply list_find_Some. split_and!.
  - apply list_lookup_insert_eq. by eapply lookup_lt_Some.
  - done.
  - intros j y Hj Hlt. rewrite list_lookup_insert_ne in Hj by lia.
    by eapply Hbefore.
Qed.

(** X17. [update_session_message] after [add_message_to_session] comes to
    adding the message with the new text in the first place: the text of
    the message just added is replaced, its sender and time stamp stay,
    and no other message or session is touched.  Without a current
    session both sides do nothing. *)
Theorem update_after_add_is_add_with_the_new_text
    (F : flavour) (st : App F) (sender sender' text text' now : string) :
  update_session_message sender' text'
    (add_message_to_session sender text now st) =
  add_message_to_session sender text' now st.
Proof.
  destruct (current_session st) as [[i s]|] eqn:Hcur.
  - unfold update_session_message.
    rewrite (current_session_after_add st sender text now i s Hcur).
    destruct (session_messages (append_message _ s)) as [|m0 ms] eqn:Hms.
    { cbn in Hms. by destruct (session_messages s). }
    rewrite set_last_text_append.
    unfold add_message_to_session. rewrite Hcur. cbn.
    by rewrite list_insert_insert_eq.
  - unfold update_session_message.
    rewrite !(add_message_no_current _ _ _ st Hcur). by rewrite Hcur.
Qed.

(** ** Loading the models *)

(** X18. When both requests of [load_models] are answered with 200 and the
    body lists models, the names listed become the options of the
    dropdown and the sessions are untouched.  With a first name that is
    not empty, that model is selected and [validate_send_conditions]
    passes every input that is not blank; with no model listed and none
    selected before, every send is turned down with "Please select a
    model first!". *)
Theorem load_models_decides_what_can_be_sent
    (F : flavour) (st : App F) (ping_body body : option json)
    (names : list string) (now : string) :
  model_names body = Some names →
  ∃ st',
    load_models (Answered 200 ping_body) (Answered 200 body) st
      = Some (st', None) ∧
    chat_sessions st' = chat_sessions st ∧
    model_options st' = names ∧
    (∀ first rest, names = first :: rest → first ≠ "" →
       current_model st' = Some first ∧
       (validate_send_conditions st').1 =
         negb (String.eqb (strip (chat_input st)) "")) ∧
    (names = [] → current_model st = None →
       handle_send_message now st' = show_error SelectModelFirst st').
Proof.
  intros Hnames. eexists. split_and!.
  - unfold load_models. cbn. rewrite Hnames. reflexivity.
  - done.
  - done.
  - intros first rest -> Hfirst. split; [done|].
    rewrite validate_send_conditions_ok. unfold can_send, model_chosen. cbn.
    apply String.eqb_neq in Hfirst. rewrite Hfirst. cbn.
    by rewrite bool_decide_eq_true_2.
  - intros -> Hnone. unfold handle_send_message, validate_send_conditions,
      model_chosen. cbn. by rewrite Hnone.
Qed.

Lemma load_models_decides_what_can_be_sent_witness :
  let body := Some (JDict [("models",
                JList [JDict [("name", JStr "llama3"); ("size", JNum 4)];
                       JDict [("name", JStr "mistral")]])]) in
  let st := {| chat_sessions := []; current_chat_id := None;
               current_model := None; model_options := [];
               chat_input := "hi"; shown := []; history_file := None;
               threads := [] |} : App MainCopy in
  ∃ st', load_models (Answered 200 None) (Answered 200 body) st
           = Some (st', None) ∧
         model_options st' = ["llama3"; "mistral"] ∧
         current_model st' = Some "llama3" ∧
         (validate_send_conditions st').1 = true.
Proof.
  destruct (load_models_decides_what_can_be_sent MainCopy
    {| chat_sessions := []; current_chat_id := None;
       current_model := None; model_options := [];
       chat_input := "hi"; shown := []; history_file := None;
       threads := [] |}
    None
    (Some (JDict [("models",
             JList [JDict [("name", JStr "llama3"); ("size", JNum 4)];
                    JDict [("name", JStr "mistral")]])]))
    ["llama3"; "mistral"] "t0" eq_refl) as (st' & Hload & _ & Hopts & Hsel & _).
  exists st'. destruct (Hsel "llama3" ["mistral"] eq_refl) as [Hcur Hval];
    [done|].
  by split_and!.
Defined.

(** ** A thread past its end *)

Section Ended.

Context {F : flavour}.
Implicit Types (st : App F) (e : event) (es : list event).



End Ended.


